(** * GLADOS cuFFT plan wrapper and DDRF CUDA coordinate helpers

    A shallow embedding of [include/glados/cufft/plan.h] and
    [include/ddrf/cuda/coordinates.h].

    The plan wrapper is a class template [plan<type>] over a cuFFT handle.
    Three layers are modelled:
    - the compile-time layer (the trait templates [type_chooser] and
      [type_mapper], the static assertions of the two [execute] member
      templates, overload resolution of [cufft_exec]);
    - the run-time layer: plan objects live in a store indexed by their
      address, member functions are computations in a small monad that
      threads the store and the log of calls made into the cuFFT library,
      and that can end normally or by a thrown exception;
    - the cuFFT library itself, which is external: it is a parameter of the
      development (an oracle giving the library's answer to every call). *)

From Stdlib Require Import ZArith List Bool Lia.
From stdpp Require Import base decidable option strings gmap.
Import ListNotations.

Local Open Scope Z_scope.

(** ** Types of the cuFFT interface (from <cufft.h>) *)

(** [cufftType]: the six transform kinds. *)
Inductive cufftType : Set :=
| CUFFT_R2C | CUFFT_C2R | CUFFT_C2C
| CUFFT_D2Z | CUFFT_Z2D | CUFFT_Z2Z.

#[global] Instance cufftType_eq_dec : EqDecision cufftType.
Proof. solve_decision. Defined.

(** [cufftResult]: the eight statuses that [handle_result] names in its
    switch; [CUFFT_unlisted code] is any other value of the enumeration
    (CUFFT_INVALID_TYPE, CUFFT_UNALIGNED_DATA, ...), carried by its raw
    code. *)
Inductive cufftResult : Set :=
| CUFFT_SUCCESS
| CUFFT_INVALID_PLAN
| CUFFT_ALLOC_FAILED
| CUFFT_INVALID_VALUE
| CUFFT_INTERNAL_ERROR
| CUFFT_EXEC_FAILED
| CUFFT_SETUP_FAILED
| CUFFT_INVALID_SIZE
| CUFFT_unlisted (code : Z).

#[global] Instance cufftResult_eq_dec : EqDecision cufftResult.
Proof. solve_decision. Defined.

(** [typedef int cufftHandle;] C [int] arguments are forwarded untouched to
    the library, and data pointers and streams are opaque to the wrapper. *)
Definition cufftHandle := Z.
Definition int := Z.
Definition ptr := Z.
Definition cudaStream_t := Z.

(** The element types a caller can instantiate [execute<I, O>] with: the
    four cuFFT element types, and any other C++ type, known by its name. *)
Inductive ctype : Set :=
| cufftReal
| cufftComplex
| cufftDoubleReal
| cufftDoubleComplex
| other_type (name : string).

#[global] Instance ctype_eq_dec : EqDecision ctype.
Proof. solve_decision. Defined.

(** [std::is_same<I, O>::value] *)
Definition is_same (I O : ctype) : bool := bool_decide (I = O).

(** ** namespace detail *)

(** [detail::type_chooser<I, O>::value]. The primary template is empty:
    [None] is "no member named value". *)
Definition type_chooser (I O : ctype) : option cufftType :=
  match I, O with
  | cufftReal, cufftComplex => Some CUFFT_R2C
  | cufftComplex, cufftReal => Some CUFFT_C2R
  | cufftComplex, cufftComplex => Some CUFFT_C2C
  | cufftDoubleReal, cufftDoubleComplex => Some CUFFT_D2Z
  | cufftDoubleComplex, cufftDoubleReal => Some CUFFT_Z2D
  | cufftDoubleComplex, cufftDoubleComplex => Some CUFFT_Z2Z
  | _, _ => None
  end.

(** [detail::type_mapper<I>::type]. The primary template is empty: [None]
    is "no type named type". *)
Definition type_mapper (I : ctype) : option ctype :=
  match I with
  | cufftReal => Some cufftComplex
  | cufftComplex => Some cufftReal
  | cufftDoubleReal => Some cufftDoubleComplex
  | cufftDoubleComplex => Some cufftDoubleReal
  | other_type _ => None
  end.

(** ** Compile-time diagnostics *)

Inductive diagnostic : Set :=
| static_assert_failed (message : string)
| no_member (template member : string)
| no_matching_function (name : string).

(** [static_assert(cond, message)], where evaluating [cond] may already be
    ill-formed ([None]) because it names a member the instantiated trait
    does not have. *)
Definition static_assert (cond : option bool) (ill_formed : diagnostic)
    (message : string) : list diagnostic :=
  match cond with
  | Some true => []
  | Some false => [static_assert_failed message]
  | None => [ill_formed]
  end.

(** ** Exceptions *)

(** Modelled from the spec: [glados/cufft/exception.h] is not part of the
    sources at hand; it declares the three exception classes thrown by
    [handle_result]. Per the spec these are the three error kinds
    invalid-argument, allocation-failure and runtime-error;
    [invalid_argument] and [runtime_error] are constructed from a
    description, [bad_alloc] from nothing. *)
Inductive exception : Set :=
| invalid_argument (what : string)
| bad_alloc
| runtime_error (what : string).

(** ** The run-time state *)

(** A plan object: the two data members, in declaration order. *)
Record plan : Set := mkplan { valid_ : bool; handle_ : cufftHandle }.

#[global] Instance plan_eq_dec : EqDecision plan.
Proof. solve_decision. Defined.

(** Calls into the cuFFT library, with the arguments passed by value.  The
    [cufftHandle*] out-argument of the plan-creation calls is not listed:
    it always is the address of the [handle_] member of the object under
    construction. *)
Inductive native_call : Set :=
| cufftPlan1d (nx : int) (type : cufftType) (batch : int)
| cufftPlan2d (nx ny : int) (type : cufftType)
| cufftPlan3d (nx ny nz : int) (type : cufftType)
| cufftPlanMany (rank : int) (n inembed : ptr) (istride idist : int)
    (onembed : ptr) (ostride odist : int) (type : cufftType) (batch : int)
| cufftDestroy (h : cufftHandle)
| cufftSetStream (h : cufftHandle) (stream : cudaStream_t)
| cufftExecC2C (h : cufftHandle) (idata odata : ptr) (direction : int)
| cufftExecZ2Z (h : cufftHandle) (idata odata : ptr) (direction : int)
| cufftExecR2C (h : cufftHandle) (idata odata : ptr)
| cufftExecD2Z (h : cufftHandle) (idata odata : ptr)
| cufftExecC2R (h : cufftHandle) (idata odata : ptr)
| cufftExecZ2D (h : cufftHandle) (idata odata : ptr).

#[global] Instance native_call_eq_dec : EqDecision native_call.
Proof. solve_decision. Defined.

(** The library's answer to a call: the returned status and, for a
    plan-creation call, what it stored through the [cufftHandle*]
    out-argument ([None]: it left the pointee alone). *)
Record native_reply : Set := mkreply {
  status : cufftResult;
  plan_out : option cufftHandle
}.

(** The world: the live plan objects by address, and the log of library
    calls made so far, oldest first. *)
Record world : Type := mkworld {
  objects : gmap positive plan;
  calls : list native_call
}.

(** How a computation ends: normally, by a thrown exception, or with
    undefined behaviour (a member access to an object that is not alive). *)
Inductive outcome (A : Type) : Type :=
| Normal (a : A)
| Thrown (e : exception)
| Undefined.
Arguments Normal {A} a.
Arguments Thrown {A} e.
Arguments Undefined {A}.

Definition M (A : Type) : Type := world -> outcome A * world.

Definition ret {A} (a : A) : M A := fun w => (Normal a, w).

Definition bind {A B} (m : M A) (k : A -> M B) : M B :=
  fun w =>
    match m w with
    | (Normal a, w') => k a w'
    | (Thrown e, w') => (Thrown e, w')
    | (Undefined, w') => (Undefined, w')
    end.

Definition throw {A} (e : exception) : M A := fun w => (Thrown e, w).

Notation "'let!' x <- m ; k" := (bind m (fun x => k))
  (at level 10, x name, m at level 100, k at level 200,
   format "'[v' 'let!'  x  <-  m ; '/' k ']'").
Notation "'run!' m ; k" := (bind m (fun _ => k))
  (at level 10, m at level 100, k at level 200,
   format "'[v' 'run!'  m ; '/' k ']'").

(** *** Member access *)

Definition load {A} (this : positive) (field : plan -> A) : M A :=
  fun w =>
    match objects w !! this with
    | Some p => (Normal (field p), w)
    | None => (Undefined, w)
    end.

Definition store (this : positive) (update : plan -> plan) : M unit :=
  fun w =>
    match objects w !! this with
    | Some p => (Normal tt, mkworld (<[this := update p]> (objects w)) (calls w))
    | None => (Undefined, w)
    end.

Definition set_valid_ (v : bool) (p : plan) : plan := mkplan v (handle_ p).
Definition set_handle_ (h : cufftHandle) (p : plan) : plan := mkplan (valid_ p) h.

(** Start of an object's lifetime, with its members initialised, and its
    end. *)
Definition begin_lifetime (this : positive) (p : plan) : M unit :=
  fun w => (Normal tt, mkworld (<[this := p]> (objects w)) (calls w)).

Definition end_lifetime (this : positive) : M unit :=
  fun w => (Normal tt, mkworld (delete this (objects w)) (calls w)).

(** ** [plan::handle_result]

    A [const] member function that reads no member: a status either lets
    control through or throws. *)
Definition handle_result (res : cufftResult) : M unit :=
  match res with
  | CUFFT_SUCCESS => ret tt
  | CUFFT_INVALID_PLAN =>
      throw (invalid_argument "The plan parameter is not a valid handle.")
  | CUFFT_ALLOC_FAILED => throw bad_alloc
  | CUFFT_INVALID_VALUE =>
      throw (invalid_argument "One or more invalid parameters were passed to the API.")
  | CUFFT_INTERNAL_ERROR =>
      throw (runtime_error "An internal driver error was detected.")
  | CUFFT_EXEC_FAILED =>
      throw (runtime_error "cuFFT failed to execute the transform on the GPU.")
  | CUFFT_SETUP_FAILED =>
      throw (runtime_error "The cuFFT library failed to initialize.")
  | CUFFT_INVALID_SIZE =>
      throw (invalid_argument "One or more of the parameters is not a supported size.")
  | CUFFT_unlisted _ => throw (runtime_error "Unknown error.")
  end.

(** An exception that leaves a constructor: the object never came to life,
    so no destructor runs for it and its storage is given back. *)
Definition constructor_body (this : positive) (body : M unit) : M unit :=
  fun w =>
    match body w with
    | (Thrown e, w') => (Thrown e, mkworld (delete this (objects w')) (calls w'))
    | r => r
    end.

Section Plan.

(** The cuFFT library: its answer to a call, given the calls made so far. *)
Variable cufft : list native_call -> native_call -> native_reply.

(** A library call without out-argument: it is logged and its status
    returned. *)
Definition native (c : native_call) : M cufftResult :=
  fun w =>
    (Normal (status (cufft (calls w) c)),
     mkworld (objects w) (calls w ++ [c])).

(** A plan-creation call, given [&handle_] of [this] as out-argument. *)
Definition native_create (this : positive) (c : native_call) : M cufftResult :=
  fun w =>
    match objects w !! this with
    | Some p =>
        let r := cufft (calls w) c in
        let p' := match plan_out r with
                  | Some h => set_handle_ h p
                  | None => p
                  end in
        (Normal (status r),
         mkworld (<[this := p']> (objects w)) (calls w ++ [c]))
    | None => (Undefined, w)
    end.

(** [template <cufftType type> class plan] *)
Variable type : cufftType.

(** [static constexpr auto transformation_type = type;] *)
Definition transformation_type : cufftType := type.

(** [plan() noexcept = default;] with the default member initialisers
    [valid_ = false] and [handle_ = 0]. *)
Definition plan_default (this : positive) : M unit :=
  begin_lifetime this (mkplan false 0).

(** [plan(int nx)] *)
Definition plan_1d (this : positive) (nx : int) : M unit :=
  run! begin_lifetime this (mkplan true 0);
  constructor_body this (
    let! res <- native_create this (cufftPlan1d nx transformation_type 1);
    handle_result res).

(** [plan(int nx, int ny)] *)
Definition plan_2d (this : positive) (nx ny : int) : M unit :=
  run! begin_lifetime this (mkplan true 0);
  constructor_body this (
    let! res <- native_create this (cufftPlan2d nx ny transformation_type);
    handle_result res).

(** [plan(int nx, int ny, int nz)] *)
Definition plan_3d (this : positive) (nx ny nz : int) : M unit :=
  run! begin_lifetime this (mkplan true 0);
  constructor_body this (
    let! res <- native_create this (cufftPlan3d nx ny nz transformation_type);
    handle_result res).

(** [plan(int rank, int* n, int* inembed, int istride, int idist,
          int* onembed, int ostride, int odist, int batch)] *)
Definition plan_many (this : positive) (rank : int) (n inembed : ptr)
    (istride idist : int) (onembed : ptr) (ostride odist batch : int) : M unit :=
  run! begin_lifetime this (mkplan true 0);
  constructor_body this (
    let! res <- native_create this
      (cufftPlanMany rank n inembed istride idist onembed ostride odist
         transformation_type batch);
    handle_result res).

(** [plan(const plan& other) noexcept] *)
Definition plan_copy (this other : positive) : M unit :=
  let! v <- load other valid_;
  let! h <- load other handle_;
  begin_lifetime this (mkplan v h).

(** [operator=(const plan& other) noexcept -> plan&] *)
Definition copy_assign (this other : positive) : M positive :=
  let! h <- load other handle_;
  run! store this (set_handle_ h);
  let! v <- load other valid_;
  run! store this (set_valid_ v);
  ret this.

(** [plan(plan&& other) noexcept]; [std::move] of an [int] copies it. *)
Definition plan_move (this other : positive) : M unit :=
  let! v <- load other valid_;
  let! h <- load other handle_;
  run! begin_lifetime this (mkplan v h);
  store other (set_valid_ false).

(** [operator=(plan&& other) noexcept -> plan&] *)
Definition move_assign (this other : positive) : M positive :=
  let! h <- load other handle_;
  run! store this (set_handle_ h);
  let! v <- load other valid_;
  run! store this (set_valid_ v);
  run! store other (set_valid_ false);
  ret this.

(** [~plan() { if(valid_) cufftDestroy(handle_); }]; the status returned
    by [cufftDestroy] is dropped. *)
Definition plan_dtor (this : positive) : M unit :=
  let! v <- load this valid_;
  run! (if v
        then let! h <- load this handle_;
             let! _ <- native (cufftDestroy h);
             ret tt
        else ret tt);
  end_lifetime this.

(** [get() noexcept -> cufftHandle] *)
Definition get (this : positive) : M cufftHandle :=
  load this handle_.

(** [set_stream(cudaStream_t stream)] *)
Definition set_stream (this : positive) (stream : cudaStream_t) : M unit :=
  let! h <- load this handle_;
  let! res <- native (cufftSetStream h stream);
  handle_result res.

(** The private overload set [cufft_exec(I* idata, O* odata, int direction)]: the overload
    chosen for the argument types, if there is one. Pointers to distinct
    element types do not convert to one another. *)
Definition cufft_exec_directional (I O : ctype)
    : option (positive -> ptr -> ptr -> int -> M unit) :=
  match I, O with
  | cufftComplex, cufftComplex =>
      Some (fun this idata odata direction =>
              let! h <- load this handle_;
              let! res <- native (cufftExecC2C h idata odata direction);
              handle_result res)
  | cufftDoubleComplex, cufftDoubleComplex =>
      Some (fun this idata odata direction =>
              let! h <- load this handle_;
              let! res <- native (cufftExecZ2Z h idata odata direction);
              handle_result res)
  | _, _ => None
  end.

(** The private overload set [cufft_exec(I* idata, O* odata)]. *)
Definition cufft_exec (I O : ctype)
    : option (positive -> ptr -> ptr -> M unit) :=
  match I, O with
  | cufftReal, cufftComplex =>
      Some (fun this idata odata =>
              let! h <- load this handle_;
              let! res <- native (cufftExecR2C h idata odata);
              handle_result res)
  | cufftDoubleReal, cufftDoubleComplex =>
      Some (fun this idata odata =>
              let! h <- load this handle_;
              let! res <- native (cufftExecD2Z h idata odata);
              handle_result res)
  | cufftComplex, cufftReal =>
      Some (fun this idata odata =>
              let! h <- load this handle_;
              let! res <- native (cufftExecC2R h idata odata);
              handle_result res)
  | cufftDoubleComplex, cufftDoubleReal =>
      Some (fun this idata odata =>
              let! h <- load this handle_;
              let! res <- native (cufftExecZ2D h idata odata);
              handle_result res)
  | _, _ => None
  end.

(** The second and third static assertion are the same in both [execute]
    member templates. *)
Definition assert_chooser (I O : ctype) : list diagnostic :=
  static_assert
    ((fun value => bool_decide (value = transformation_type)) <$> type_chooser I O)
    (no_member "type_chooser" "value")
    "This plan can not be used for other types than originally specified.".

Definition assert_mapper (I O : ctype) : list diagnostic :=
  static_assert
    (is_same O <$> type_mapper I)
    (no_member "type_mapper" "type")
    "Attempt to transform to an incompatible type.".

(** [template <class I, class O> execute(I* idata, O* odata)]: the
    instantiation at [I], [O] is either rejected by the compiler, with
    diagnostics, or is a member function. *)
Definition execute (I O : ctype)
    : list diagnostic + (positive -> ptr -> ptr -> M unit) :=
  let asserts :=
    static_assert (Some (negb (is_same I O)))
      (no_member "is_same" "value")
      "Plan needs a direction for transformations between the same types."
    ++ assert_chooser I O
    ++ assert_mapper I O in
  match cufft_exec I O, asserts with
  | Some f, [] => inr (fun this idata odata => f this idata odata)
  | Some _, _ => inl asserts
  | None, _ => inl (asserts ++ [no_matching_function "cufft_exec"])
  end.

(** [template <class I, class O> execute(I* idata, O* odata, int direction)] *)
Definition execute_directional (I O : ctype)
    : list diagnostic + (positive -> ptr -> ptr -> int -> M unit) :=
  let asserts :=
    static_assert (Some (is_same I O))
      (no_member "is_same" "value")
      "Transformations between different types are implicitly inverse"
    ++ assert_chooser I O
    ++ assert_mapper I O in
  match cufft_exec_directional I O, asserts with
  | Some f, [] =>
      inr (fun this idata odata direction => f this idata odata direction)
  | Some _, _ => inl asserts
  | None, _ => inl (asserts ++ [no_matching_function "cufft_exec"])
  end.

End Plan.

(** ** [ddrf::cuda] coordinate helpers *)

Module cuda.

(** [unsigned int] is 32 bits wide on every CUDA target; its arithmetic
    is modulo [2^32]. *)
Definition UINT_MOD : Z := 2 ^ 32.
Definition uint_mul (a b : Z) : Z := (a * b) mod UINT_MOD.
Definition uint_add (a b : Z) : Z := (a + b) mod UINT_MOD.
Definition is_uint (a : Z) : Prop := 0 <= a < UINT_MOD.

(** [uint3] / [dim3]: three [unsigned int] components. *)
Record uint3 : Set := mkuint3 { x : Z; y : Z; z : Z }.

Definition uint3_ok (v : uint3) : Prop :=
  is_uint (x v) /\ is_uint (y v) /\ is_uint (z v).

(** The built-in variables a device function can read: the identifiers
    the execution grid assigns to the running thread. *)
Record thread_context : Set := mkcontext {
  gridDim : uint3;
  blockIdx : uint3;
  blockDim : uint3;
  threadIdx : uint3
}.

Definition context_ok (c : thread_context) : Prop :=
  uint3_ok (gridDim c) /\ uint3_ok (blockIdx c) /\
  uint3_ok (blockDim c) /\ uint3_ok (threadIdx c).

(** [return blockIdx.x * blockDim.x + threadIdx.x;] *)
Definition coord_x (c : thread_context) : Z :=
  uint_add (uint_mul (x (blockIdx c)) (x (blockDim c))) (x (threadIdx c)).

(** [return blockIdx.y * blockDim.y + threadIdx.y;] *)
Definition coord_y (c : thread_context) : Z :=
  uint_add (uint_mul (y (blockIdx c)) (y (blockDim c))) (y (threadIdx c)).

(** [return blockIdx.z * blockDim.z + threadIdx.z;] *)
Definition coord_z (c : thread_context) : Z :=
  uint_add (uint_mul (z (blockIdx c)) (z (blockDim c))) (z (threadIdx c)).

(** The value the specification names, over the integers. *)
Definition exact_x (c : thread_context) : Z :=
  x (blockIdx c) * x (blockDim c) + x (threadIdx c).
Definition exact_y (c : thread_context) : Z :=
  y (blockIdx c) * y (blockDim c) + y (threadIdx c).
Definition exact_z (c : thread_context) : Z :=
  z (blockIdx c) * z (blockDim c) + z (threadIdx c).

(** A launch of 4194305 blocks of 1024 threads along x: the first thread
    of the last block. *)
Definition far_thread : thread_context :=
  mkcontext (mkuint3 4194305 1 1) (mkuint3 4194304 0 0)
            (mkuint3 1024 1 1) (mkuint3 0 0 0).

End cuda.

(** ** The error taxonomy *)

Inductive error_kind : Set :=
| invalid_argument_kind
| allocation_failure_kind
| runtime_error_kind.

Definition kind_of (e : exception) : error_kind :=
  match e with
  | invalid_argument _ => invalid_argument_kind
  | bad_alloc => allocation_failure_kind
  | runtime_error _ => runtime_error_kind
  end.

(** The taxonomy as the specification words it: what each status surfaces
    as ([None]: silently nothing). *)
Definition specified_kind (res : cufftResult) : option error_kind :=
  match res with
  | CUFFT_SUCCESS => None
  | CUFFT_INVALID_PLAN | CUFFT_INVALID_VALUE | CUFFT_INVALID_SIZE =>
      Some invalid_argument_kind
  | CUFFT_ALLOC_FAILED => Some allocation_failure_kind
  | CUFFT_INTERNAL_ERROR | CUFFT_EXEC_FAILED | CUFFT_SETUP_FAILED =>
      Some runtime_error_kind
  | CUFFT_unlisted _ => Some runtime_error_kind
  end.

(** ** Vocabulary of the properties *)

(** The cuFFT execute routine without direction argument that belongs to a
    transform kind; the complex-to-complex kinds have none. *)
Definition native_exec (type : cufftType)
    : option (cufftHandle -> ptr -> ptr -> native_call) :=
  match type with
  | CUFFT_R2C => Some cufftExecR2C
  | CUFFT_C2R => Some cufftExecC2R
  | CUFFT_D2Z => Some cufftExecD2Z
  | CUFFT_Z2D => Some cufftExecZ2D
  | CUFFT_C2C | CUFFT_Z2Z => None
  end.

(** Forwarding to a library routine: read the handle, call the routine on
    it with the caller's arguments, inspect the status. *)
Definition forward (cufft : list native_call -> native_call -> native_reply)
    (routine : cufftHandle -> ptr -> ptr -> native_call)
    : positive -> ptr -> ptr -> M unit :=
  fun this idata odata =>
    let! h <- load this handle_;
    let! res <- native cufft (routine h idata odata);
    handle_result res.

(** Forwarding to a library routine that takes a direction. *)
Definition forward_directional
    (cufft : list native_call -> native_call -> native_reply)
    (routine : cufftHandle -> ptr -> ptr -> int -> native_call)
    : positive -> ptr -> ptr -> int -> M unit :=
  fun this idata odata direction =>
    let! h <- load this handle_;
    let! res <- native cufft (routine h idata odata direction);
    handle_result res.

(** An instantiation the compiler rejects: there is a diagnostic. *)
Definition rejected {A} (r : list diagnostic + A) : Prop :=
  exists d ds, r = inl (d :: ds).

(** The invariant of the data model, relative to the identifiers that the
    library has handed out and not yet taken back: a plan whose flag is set
    holds one of them. *)
Definition flag_sound (acquired : cufftHandle -> Prop) (w : world) : Prop :=
  forall (a : positive) (p : plan),
    objects w !! a = Some p -> valid_ p = true -> acquired (handle_ p).

(** What a plan releases when it is destroyed. *)
Definition released_by (p : plan) : list native_call :=
  if valid_ p then [cufftDestroy (handle_ p)] else [].

(** The four sizing constructors share their body: the members start out
    as [valid_ = true], [handle_ = 0], the creation call gets [&handle_],
    and its status goes through [handle_result]. *)
Definition construct
    (cufft : list native_call -> native_call -> native_reply)
    (this : positive) (c : native_call) : M unit :=
  run! begin_lifetime this (mkplan true 0);
  constructor_body this (
    let! res <- native_create cufft this c;
    handle_result res).

(** The object a successful constructor leaves behind. *)
Definition constructed (r : native_reply) : plan :=
  mkplan true (default 0 (plan_out r)).

(** A library that answers every call with success and stores nothing, and
    a world with a valid plan at address 2 and an invalid one at address 3,
    for the examples below. *)
Definition quiet_cufft (log : list native_call) (c : native_call) : native_reply :=
  mkreply CUFFT_SUCCESS None.

Definition two_plans : world :=
  mkworld (<[3%positive := mkplan false 0]> (<[2%positive := mkplan true 7]> ∅)) [].

(** Two valid plans holding the same identifier, as a copy leaves them. *)
Definition twin_plans : world :=
  mkworld (<[5%positive := mkplan true 7]> (<[2%positive := mkplan true 7]> ∅)) [].

(** Two valid plans holding different identifiers. *)
Definition rival_plans : world :=
  mkworld (<[5%positive := mkplan true 9]> (<[2%positive := mkplan true 7]> ∅)) [].

(** A library that hands out identifier 42 for every plan it creates. *)
Definition granting_cufft (log : list native_call) (c : native_call) : native_reply :=
  mkreply CUFFT_SUCCESS (Some 42).

(** ** Vocabulary of the further properties *)

(** Single ownership: no two live plans with the flag set hold the same
    identifier. *)
Definition unique_owner (w : world) : Prop :=
  forall (a b : positive) (pa pb : plan),
    objects w !! a = Some pa -> objects w !! b = Some pb ->
    valid_ pa = true -> valid_ pb = true ->
    handle_ pa = handle_ pb -> a = b.

(** An identifier that no live plan with the flag set holds. *)
Definition unowned (h : cufftHandle) (w : world) : Prop :=
  forall (a : positive) (p : plan),
    objects w !! a = Some p -> valid_ p = true -> handle_ p <> h.

(** A computation that never ends by an exception, and one that makes no
    library call, from whatever world it is run. *)
Definition never_throws {A} (m : M A) : Prop :=
  forall (w : world) (e : exception), fst (m w) <> Thrown e.

Definition silent {A} (m : M A) : Prop :=
  forall w : world, calls (snd (m w)) = calls w.

(** An instantiation the compiler accepts. *)
Definition accepted {A} (r : list diagnostic + A) : Prop :=
  exists f, r = inr f.

(** The diagnostics of an instantiation ([[]] when it is accepted). *)
Definition diagnostics {A} (r : list diagnostic + A) : list diagnostic :=
  match r with
  | inl ds => ds
  | inr _ => []
  end.

(** A library that answers every call with one given status and stores
    nothing. *)
Definition constant_cufft (res : cufftResult)
    (log : list native_call) (c : native_call) : native_reply :=
  mkreply res None.

(** A world with no plan in it. *)
Definition no_plans : world := mkworld ∅ [].

(** A world whose only plan is a valid one at address 2, and one whose only
    plan is not valid. *)
Definition one_plan : world := mkworld (<[2%positive := mkplan true 7]> ∅) [].

Definition one_invalid_plan : world :=
  mkworld (<[2%positive := mkplan false 7]> ∅) [].

(** What the execution grid guarantees about the identifiers of a thread:
    along each axis the block index is below the grid extent and the thread
    index below the block extent. *)
Definition in_grid (c : cuda.thread_context) : Prop :=
  (cuda.x (cuda.blockIdx c) < cuda.x (cuda.gridDim c) /\
   cuda.x (cuda.threadIdx c) < cuda.x (cuda.blockDim c)) /\
  (cuda.y (cuda.blockIdx c) < cuda.y (cuda.gridDim c) /\
   cuda.y (cuda.threadIdx c) < cuda.y (cuda.blockDim c)) /\
  (cuda.z (cuda.blockIdx c) < cuda.z (cuda.gridDim c) /\
   cuda.z (cuda.threadIdx c) < cuda.z (cuda.blockDim c)).

(** A launch whose thread count along each axis fits an [unsigned int]. *)
Definition launch_fits (c : cuda.thread_context) : Prop :=
  cuda.x (cuda.gridDim c) * cuda.x (cuda.blockDim c) <= cuda.UINT_MOD /\
  cuda.y (cuda.gridDim c) * cuda.y (cuda.blockDim c) <= cuda.UINT_MOD /\
  cuda.z (cuda.gridDim c) * cuda.z (cuda.blockDim c) <= cuda.UINT_MOD.

(** Two threads of one launch. *)
Definition same_launch (c1 c2 : cuda.thread_context) : Prop :=
  cuda.gridDim c1 = cuda.gridDim c2 /\ cuda.blockDim c1 = cuda.blockDim c2.

(** Two threads of a launch of 4 x 2 x 1 blocks of 256 x 2 x 1 threads. *)
Definition small_launch_thread (bx by_ tx ty : Z) : cuda.thread_context :=
  cuda.mkcontext (cuda.mkuint3 4 2 1) (cuda.mkuint3 bx by_ 0)
                 (cuda.mkuint3 256 2 1) (cuda.mkuint3 tx ty 0).

(** * Properties *)

(** ** Coordinates *)

Module cuda_facts.
Import cuda.

Lemma uint_exact a b t :
  0 <= a * b + t < UINT_MOD -> 0 <= a -> 0 <= b -> 0 <= t ->
  uint_add (uint_mul a b) t = a * b + t.
Proof.
  intros Hr Ha Hb Ht. unfold uint_add, uint_mul.
  assert (0 <= a * b) by nia.
  rewrite (Z.mod_small (a * b)) by lia.
  apply Z.mod_small. lia.
Qed.

Lemma uint_wrap a b t :
  uint_add (uint_mul a b) t = (a * b + t) mod UINT_MOD.
Proof.
  unfold uint_add, uint_mul.
  rewrite Zplus_mod_idemp_l. reflexivity.
Qed.

(** C8, as stated, fails: for the thread [far_thread], well inside what a
    grid can assign, [coord_x] returns 0 while
    block_index * block_extent + thread_index is 4294967296. *)
Lemma coord_x_not_exact :
  context_ok far_thread /\
  coord_x far_thread = 0 /\
  exact_x far_thread = 4294967296 /\
  coord_x far_thread <> exact_x far_thread.
Proof.
  split; [|split; [|split]].
  - unfold context_ok, uint3_ok, is_uint, UINT_MOD. simpl. lia.
  - reflexivity.
  - reflexivity.
  - discriminate.
Qed.

(** C8, amended: each helper returns
    block_index * block_extent + thread_index of its axis reduced modulo
    2^32, which is that value itself whenever it is below 2^32; the
    result is a function of the three identifiers of its axis alone. *)
Theorem coord_spec (c : thread_context) (Hc : context_ok c) :
  (coord_x c = exact_x c mod UINT_MOD /\
   coord_y c = exact_y c mod UINT_MOD /\
   coord_z c = exact_z c mod UINT_MOD) /\
  (exact_x c < UINT_MOD -> coord_x c = exact_x c) /\
  (exact_y c < UINT_MOD -> coord_y c = exact_y c) /\
  (exact_z c < UINT_MOD -> coord_z c = exact_z c) /\
  (forall c' : thread_context,
     (x (blockIdx c') = x (blockIdx c) -> x (blockDim c') = x (blockDim c) ->
      x (threadIdx c') = x (threadIdx c) -> coord_x c' = coord_x c) /\
     (y (blockIdx c') = y (blockIdx c) -> y (blockDim c') = y (blockDim c) ->
      y (threadIdx c') = y (threadIdx c) -> coord_y c' = coord_y c) /\
     (z (blockIdx c') = z (blockIdx c) -> z (blockDim c') = z (blockDim c) ->
      z (threadIdx c') = z (threadIdx c) -> coord_z c' = coord_z c)).
Proof.
  destruct Hc as (_ & (Hbx & Hby & Hbz) & (Hdx & Hdy & Hdz) & (Htx & Hty & Htz)).
  unfold is_uint in *.
  split; [|split; [|split; [|split]]].
  - unfold coord_x, coord_y, coord_z, exact_x, exact_y, exact_z.
    rewrite !uint_wrap. auto.
  - intros H. unfold coord_x, exact_x in *.
    apply uint_exact; [split; [nia | lia] | lia | lia | lia].
  - intros H. unfold coord_y, exact_y in *.
    apply uint_exact; [split; [nia | lia] | lia | lia | lia].
  - intros H. unfold coord_z, exact_z in *.
    apply uint_exact; [split; [nia | lia] | lia | lia | lia].
  - intros c'. unfold coord_x, coord_y, coord_z.
    repeat split; intros -> -> ->; reflexivity.
Qed.

Lemma coord_spec_witness :
  let c := mkcontext (mkuint3 4 2 1) (mkuint3 3 1 0)
                     (mkuint3 256 2 1) (mkuint3 17 1 0) in
  context_ok c /\ coord_x c = 785 /\ coord_y c = 3 /\ coord_z c = 0.
Proof.
  intros c. subst c.
  match goal with |- context_ok ?c /\ _ => assert (Hc : context_ok c) end.
  { unfold context_ok, uint3_ok, is_uint, UINT_MOD. simpl. lia. }
  split; [exact Hc|].
  destruct (coord_spec _ Hc) as (_ & Hx & Hy & Hz & _).
  split; [|split].
  - rewrite Hx; reflexivity.
  - rewrite Hy; reflexivity.
  - rewrite Hz; reflexivity.
Defined.

End cuda_facts.

(** ** Status translation *)

(** C2: [handle_result] lets success through silently, without touching
    the state, and turns every other status into one exception, of the
    kind the taxonomy names: invalid-plan, invalid-value and invalid-size
    give invalid-argument, allocation-failed gives bad-alloc,
    internal-error, exec-failed and setup-failed give runtime-error, and
    every other status gives the runtime-error "Unknown error.". *)
Theorem handle_result_taxonomy (res : cufftResult) (w : world) :
  match specified_kind res with
  | None => res = CUFFT_SUCCESS /\ handle_result res w = (Normal tt, w)
  | Some k =>
      res <> CUFFT_SUCCESS /\
      exists e, handle_result res w = (Thrown e, w) /\ kind_of e = k
  end /\
  handle_result CUFFT_ALLOC_FAILED w = (Thrown bad_alloc, w) /\
  (forall code : Z,
     handle_result (CUFFT_unlisted code) w =
       (Thrown (runtime_error "Unknown error."), w)).
Proof.
  split; [|split; [reflexivity | intros; reflexivity]].
  destruct res; simpl; unfold throw, ret;
    first [ split; reflexivity
          | split; [discriminate | eexists; split; reflexivity] ].
Qed.

(** ** The compile-time contract of [execute] *)

Lemma rejected_snoc {A} (l : list diagnostic) (a : diagnostic) :
  @rejected A (inl (l ++ [a])).
Proof. unfold rejected. destruct l; simpl; eauto. Qed.

Lemma is_same_refl I : is_same I I = true.
Proof. unfold is_same. apply bool_decide_eq_true. reflexivity. Qed.

Lemma is_same_false I O : is_same I O = false <-> I <> O.
Proof. unfold is_same. apply bool_decide_eq_false. Qed.

(** [type_mapper] never maps a type to itself. *)
Lemma type_mapper_irrefl I : type_mapper I <> Some I.
Proof. destruct I; discriminate. Qed.

(** Where [type_chooser] is defined and the types differ, [type_mapper]
    agrees: the second assertion of [execute] subsumes the third. *)
Lemma type_chooser_mapper I O type :
  type_chooser I O = Some type -> I <> O -> type_mapper I = Some O.
Proof. destruct I, O; simpl; congruence. Qed.

(** The directionless overload set has no member for the types of an
    unlisted pair. *)
Lemma cufft_exec_none cufft I O :
  type_chooser I O = None -> cufft_exec cufft I O = None.
Proof. destruct I, O; simpl; congruence. Qed.

(** C3: the instantiation [execute<I, O>] of [plan<type>] is rejected when
    [I] and [O] are the same type, or [type_chooser<I, O>::value] is not
    [type] (or does not exist), or [O] is not [type_mapper<I>::type]; when
    none of the three is the case it is accepted, and the member function
    forwards handle and both pointers to the cuFFT execute routine of kind
    [type] and hands its status to [handle_result]. *)
Theorem execute_static_contract
    (cufft : list native_call -> native_call -> native_reply)
    (type : cufftType) (I O : ctype) :
  (I = O \/ type_chooser I O <> Some type \/ type_mapper I <> Some O ->
   rejected (execute cufft type I O)) /\
  (I <> O -> type_chooser I O = Some type -> type_mapper I = Some O ->
   exists routine,
     native_exec type = Some routine /\
     execute cufft type I O = inr (forward cufft routine)).
Proof.
  split.
  - intros Hbad. unfold rejected, execute.
    destruct (type_chooser I O) as [t|] eqn:Hch.
    + destruct (decide (I = O)) as [->|Hne].
      * (* same types: only the complex pairs get this far *)
        destruct O; simpl in Hch; try discriminate;
          unfold assert_chooser, assert_mapper, transformation_type; simpl;
          eauto.
      * destruct (decide (t = type)) as [->|Ht].
        -- exfalso. destruct Hbad as [H|[H|H]]; [auto | auto |].
           apply H. eapply type_chooser_mapper; eauto.
        -- destruct I, O; simpl in Hch; try discriminate;
             injection Hch as <-; destruct type; try congruence;
             unfold assert_chooser, assert_mapper, transformation_type;
             simpl; eauto.
    + rewrite (cufft_exec_none cufft I O Hch). apply rejected_snoc.
  - intros Hne Hch Hmap.
    destruct I, O; simpl in Hch; try discriminate;
      injection Hch as <-; try congruence;
      (eexists; split; [reflexivity | reflexivity]).
Qed.

Lemma execute_static_contract_witness :
  let cufft := fun (_ : list native_call) (_ : native_call) =>
                 mkreply CUFFT_SUCCESS None in
  rejected (execute cufft CUFFT_R2C cufftReal cufftReal) /\
  exists routine,
    native_exec CUFFT_R2C = Some routine /\
    execute cufft CUFFT_R2C cufftReal cufftComplex = inr (forward cufft routine).
Proof.
  intros cufft. split.
  - apply (execute_static_contract cufft CUFFT_R2C cufftReal cufftReal).
    left. reflexivity.
  - apply (execute_static_contract cufft CUFFT_R2C cufftReal cufftComplex).
    + discriminate.
    + reflexivity.
    + reflexivity.
Defined.

(** The part of the directional contract that holds: instantiating the
    directional [execute] with two different types is rejected. *)
Lemma execute_directional_mismatch_rejected
    (cufft : list native_call -> native_call -> native_reply)
    (type : cufftType) (I O : ctype) :
  I <> O -> rejected (execute_directional cufft type I O).
Proof.
  intros Hne. unfold rejected, execute_directional.
  apply is_same_false in Hne. rewrite Hne.
  destruct (cufft_exec_directional cufft I O); simpl; eauto.
Qed.

(** No instantiation of the directional [execute] gets past the compiler:
    its first assertion wants [I] and [O] equal, its third wants [O] to be
    [type_mapper<I>::type], which never is [I]. *)
Lemma execute_directional_never_accepted
    (cufft : list native_call -> native_call -> native_reply)
    (type : cufftType) (I O : ctype) :
  rejected (execute_directional cufft type I O).
Proof.
  destruct (decide (I = O)) as [->|Hne].
  - unfold rejected, execute_directional. rewrite is_same_refl.
    destruct O; simpl; try apply rejected_snoc;
      destruct type; unfold assert_chooser, assert_mapper; simpl; eauto.
  - apply execute_directional_mismatch_rejected; assumption.
Qed.

(** C1, on the code: [plan<CUFFT_C2C>::execute<cufftComplex, cufftComplex>]
    with a direction passes the first two assertions and fails the third,
    and so does the double-precision instantiation; the requested
    forwarding to [cufftExecC2C] / [cufftExecZ2Z] is never compiled. *)
Theorem execute_directional_complex_rejected
    (cufft : list native_call -> native_call -> native_reply) :
  execute_directional cufft CUFFT_C2C cufftComplex cufftComplex =
    inl [static_assert_failed "Attempt to transform to an incompatible type."] /\
  execute_directional cufft CUFFT_Z2Z cufftDoubleComplex cufftDoubleComplex =
    inl [static_assert_failed "Attempt to transform to an incompatible type."] /\
  (forall type I O, rejected (execute_directional cufft type I O)) /\
  cufft_exec_directional cufft cufftComplex cufftComplex =
    Some (forward_directional cufft cufftExecC2C) /\
  cufft_exec_directional cufft cufftDoubleComplex cufftDoubleComplex =
    Some (forward_directional cufft cufftExecZ2Z).
Proof.
  split; [reflexivity|]. split; [reflexivity|]. split.
  - intros. apply execute_directional_never_accepted.
  - split; reflexivity.
Qed.

(** ** Running member functions *)

Lemma load_live {A} (this : positive) (field : plan -> A) (p : plan) (w : world) :
  objects w !! this = Some p -> load this field w = (Normal (field p), w).
Proof. intros H. unfold load. rewrite H. reflexivity. Qed.

Lemma store_live (this : positive) (update : plan -> plan) (p : plan) (w : world) :
  objects w !! this = Some p ->
  store this update w =
    (Normal tt, mkworld (<[this := update p]> (objects w)) (calls w)).
Proof. intros H. unfold store. rewrite H. reflexivity. Qed.

Lemma plan_eta (p : plan) : mkplan (valid_ p) (handle_ p) = p.
Proof. destruct p; reflexivity. Qed.

(** Looking up an object in a store built by insertions. *)
Ltac live :=
  simpl;
  repeat first [ rewrite lookup_insert_eq
               | rewrite lookup_insert_ne by congruence ];
  first [ eassumption | reflexivity ].

(** Running straight-line member code on live objects. *)
Ltac run :=
  unfold bind, ret, begin_lifetime, end_lifetime, native; simpl;
  repeat (first [ erewrite load_live by live
                | erewrite store_live by live ]; simpl).

(** *** Destruction *)

Lemma plan_dtor_run
    (cufft : list native_call -> native_call -> native_reply)
    (this : positive) (p : plan) (w : world) :
  objects w !! this = Some p ->
  plan_dtor cufft this w =
    (Normal tt,
     mkworld (delete this (objects w))
       (calls w ++ if valid_ p then [cufftDestroy (handle_ p)] else [])).
Proof.
  intros H. unfold plan_dtor. run.
  destruct (valid_ p); run.
  - reflexivity.
  - rewrite app_nil_r. reflexivity.
Qed.

(** C5: destroying a valid handle makes exactly one library call,
    [cufftDestroy] on the identifier it holds; destroying a handle that is
    not valid makes no library call.  Either way the object is gone. *)
Theorem plan_dtor_releases_once
    (cufft : list native_call -> native_call -> native_reply)
    (this : positive) (p : plan) (w : world)
    (Hlive : objects w !! this = Some p) :
  (valid_ p = true ->
   plan_dtor cufft this w =
     (Normal tt,
      mkworld (delete this (objects w)) (calls w ++ [cufftDestroy (handle_ p)]))) /\
  (valid_ p = false ->
   plan_dtor cufft this w =
     (Normal tt, mkworld (delete this (objects w)) (calls w))).
Proof.
  rewrite (plan_dtor_run cufft this p w Hlive).
  split; intros ->; [reflexivity | rewrite app_nil_r; reflexivity].
Qed.

Lemma plan_dtor_releases_once_witness :
  plan_dtor quiet_cufft 2 two_plans =
    (Normal tt, mkworld (delete 2%positive (objects two_plans)) [cufftDestroy 7]) /\
  plan_dtor quiet_cufft 3 two_plans =
    (Normal tt, mkworld (delete 3%positive (objects two_plans)) []).
Proof.
  split.
  - apply (plan_dtor_releases_once quiet_cufft 2 (mkplan true 7) two_plans);
      reflexivity.
  - apply (plan_dtor_releases_once quiet_cufft 3 (mkplan false 0) two_plans);
      reflexivity.
Defined.

(** *** Default construction *)

(** C9: a default-constructed plan is not valid and holds identifier 0;
    [get] on it returns 0; destroying it makes no library call; and since
    its flag is not set, default construction keeps [flag_sound] whatever
    the acquired identifiers are. *)
Theorem plan_default_invalid
    (cufft : list native_call -> native_call -> native_reply)
    (this : positive) (w : world) (acquired : cufftHandle -> Prop)
    (Hinv : flag_sound acquired w) :
  let w1 := mkworld (<[this := mkplan false 0]> (objects w)) (calls w) in
  plan_default this w = (Normal tt, w1) /\
  get this w1 = (Normal 0, w1) /\
  plan_dtor cufft this w1 =
    (Normal tt, mkworld (delete this (objects w1)) (calls w)) /\
  flag_sound acquired w1.
Proof.
  intros w1. split; [reflexivity|]. split; [|split].
  - unfold get. erewrite load_live by (subst w1; live). reflexivity.
  - erewrite plan_dtor_run by (subst w1; live). simpl.
    rewrite app_nil_r. reflexivity.
  - intros a p. subst w1. simpl.
    destruct (decide (this = a)) as [->|Hne].
    + rewrite lookup_insert_eq. intros [= <-]. discriminate.
    + rewrite lookup_insert_ne by assumption. apply Hinv.
Qed.

Lemma plan_default_invalid_witness :
  let w1 := mkworld (<[5%positive := mkplan false 0]> (objects two_plans)) [] in
  plan_default 5 two_plans = (Normal tt, w1) /\
  get 5 w1 = (Normal 0, w1) /\
  plan_dtor quiet_cufft 5 w1 =
    (Normal tt, mkworld (delete 5%positive (objects w1)) []) /\
  flag_sound (fun h => h = 7) w1.
Proof.
  apply (plan_default_invalid quiet_cufft 5 two_plans (fun h => h = 7)).
  intros a p. unfold two_plans. simpl.
  destruct (decide (a = 3%positive)) as [->|H3].
  - rewrite lookup_insert_eq. intros [= <-]. discriminate.
  - rewrite lookup_insert_ne by congruence.
    destruct (decide (a = 2%positive)) as [->|H2].
    + rewrite lookup_insert_eq. intros [= <-]. reflexivity.
    + rewrite lookup_insert_ne by congruence. rewrite lookup_empty.
      discriminate.
Defined.

(** *** Moving *)

Lemma plan_move_run (this other : positive) (p : plan) (w : world) :
  objects w !! other = Some p -> this <> other ->
  plan_move this other w =
    (Normal tt,
     mkworld (<[other := mkplan false (handle_ p)]>
                (<[this := mkplan (valid_ p) (handle_ p)]> (objects w)))
             (calls w)).
Proof. intros Hother Hne. unfold plan_move. run. reflexivity. Qed.

Lemma move_assign_run (this other : positive) (p q : plan) (w : world) :
  objects w !! other = Some p -> objects w !! this = Some q -> this <> other ->
  move_assign this other w =
    (Normal this,
     mkworld (<[other := mkplan false (handle_ p)]>
                (<[this := mkplan (valid_ p) (handle_ p)]> (objects w)))
             (calls w)).
Proof.
  intros Hother Hthis Hne. unfold move_assign. run.
  rewrite insert_insert_eq. reflexivity.
Qed.

(** Moving a plan onto itself: the flag is copied and then cleared in the
    same object, so the plan ends up not valid, still holding its
    identifier, and nothing was released. *)
Lemma move_assign_self (this : positive) (p : plan) (w : world) :
  objects w !! this = Some p ->
  move_assign this this w =
    (Normal this,
     mkworld (<[this := mkplan false (handle_ p)]> (objects w)) (calls w)).
Proof.
  intros Hthis. unfold move_assign. run.
  rewrite !insert_insert_eq. reflexivity.
Qed.

(** C4: moving from a valid plan [src], into any new object [fresh] by the
    move constructor or into any other live object [dst] by move
    assignment, leaves [src] not valid and the destination valid with the
    identifier [src] held; no library call is made; and destroying [src]
    afterwards makes no library call either. *)
Theorem move_transfers_ownership
    (cufft : list native_call -> native_call -> native_reply)
    (src : positive) (p : plan) (w : world)
    (Hsrc : objects w !! src = Some p) (Hvalid : valid_ p = true) :
  (forall fresh : positive,
     objects w !! fresh = None ->
     let w1 := mkworld (<[src := mkplan false (handle_ p)]>
                          (<[fresh := mkplan true (handle_ p)]> (objects w)))
                       (calls w) in
     plan_move fresh src w = (Normal tt, w1) /\
     plan_dtor cufft src w1 =
       (Normal tt, mkworld (delete src (objects w1)) (calls w))) /\
  (forall (dst : positive) (q : plan),
     objects w !! dst = Some q -> dst <> src ->
     let w2 := mkworld (<[src := mkplan false (handle_ p)]>
                          (<[dst := mkplan true (handle_ p)]> (objects w)))
                       (calls w) in
     move_assign dst src w = (Normal dst, w2) /\
     plan_dtor cufft src w2 =
       (Normal tt, mkworld (delete src (objects w2)) (calls w))).
Proof.
  split.
  - intros fresh Hfresh w1. subst w1.
    assert (Hne' : fresh <> src) by congruence.
    split.
    + rewrite (plan_move_run fresh src p w Hsrc Hne'), Hvalid. reflexivity.
    + erewrite plan_dtor_run by live. simpl. rewrite app_nil_r. reflexivity.
  - intros dst q Hdst Hne w2. subst w2.
    split.
    + rewrite (move_assign_run dst src p q w Hsrc Hdst Hne), Hvalid. reflexivity.
    + erewrite plan_dtor_run by live. simpl. rewrite app_nil_r. reflexivity.
Qed.

Lemma move_transfers_ownership_witness :
  (plan_move 5 2 one_plan =
     (Normal tt,
      mkworld (<[2%positive := mkplan false 7]>
                 (<[5%positive := mkplan true 7]> (objects one_plan))) []) /\
   plan_dtor quiet_cufft 2
     (mkworld (<[2%positive := mkplan false 7]>
                 (<[5%positive := mkplan true 7]> (objects one_plan))) []) =
     (Normal tt,
      mkworld (delete 2%positive
                 (<[2%positive := mkplan false 7]>
                    (<[5%positive := mkplan true 7]> (objects one_plan)))) [])) /\
  move_assign 3 2 two_plans =
    (Normal 3%positive,
     mkworld (<[2%positive := mkplan false 7]>
                (<[3%positive := mkplan true 7]> (objects two_plans))) []).
Proof.
  split.
  - destruct (move_transfers_ownership quiet_cufft 2 (mkplan true 7) one_plan
                eq_refl eq_refl) as [H _].
    exact (H 5%positive eq_refl).
  - destruct (move_transfers_ownership quiet_cufft 2 (mkplan true 7) two_plans
                eq_refl eq_refl) as [_ H].
    destruct (H 3%positive (mkplan false 0) eq_refl) as [H1 _];
      [discriminate | exact H1].
Defined.

(** *** Copying *)

Lemma plan_copy_run (this other : positive) (p : plan) (w : world) :
  objects w !! other = Some p ->
  plan_copy this other w =
    (Normal tt, mkworld (<[this := p]> (objects w)) (calls w)).
Proof.
  intros Hother. unfold plan_copy. run. rewrite plan_eta. reflexivity.
Qed.

Lemma copy_assign_run (this other : positive) (p q : plan) (w : world) :
  objects w !! other = Some p -> objects w !! this = Some q ->
  copy_assign this other w =
    (Normal this, mkworld (<[this := p]> (objects w)) (calls w)).
Proof.
  intros Hother Hthis. unfold copy_assign. run.
  destruct (decide (this = other)) as [->|Hne].
  - erewrite load_live by live. simpl. erewrite store_live by live. simpl.
    rewrite insert_insert_eq.
    assert (q = p) by congruence. subst q.
    unfold set_valid_, set_handle_. simpl. rewrite plan_eta. reflexivity.
  - run. rewrite insert_insert_eq. unfold set_valid_. simpl.
    rewrite plan_eta. reflexivity.
Qed.

(** Destroying two live plans, one after the other. *)
Lemma plan_dtor_twice
    (cufft : list native_call -> native_call -> native_reply)
    (a b : positive) (pa pb : plan) (w : world) :
  objects w !! a = Some pa -> objects w !! b = Some pb -> a <> b ->
  (run! plan_dtor cufft a; plan_dtor cufft b) w =
    (Normal tt,
     mkworld (delete b (delete a (objects w)))
       (calls w ++ (if valid_ pa then [cufftDestroy (handle_ pa)] else [])
                ++ (if valid_ pb then [cufftDestroy (handle_ pb)] else []))).
Proof.
  intros Ha Hb Hne. unfold bind at 1.
  rewrite (plan_dtor_run cufft a pa w Ha).
  erewrite plan_dtor_run by (simpl; rewrite lookup_delete_ne by congruence; eassumption).
  simpl. rewrite <- app_assoc. reflexivity.
Qed.

(** C6: copying a valid plan [src], into any new object [fresh] by the copy
    constructor or into any other live object [dst] by copy assignment,
    makes no library call, leaves [src] as it was, and gives the
    destination the same identifier with the flag set; destroying the copy
    and then the source calls [cufftDestroy] twice on that one
    identifier. *)
Theorem copy_shares_release_right
    (cufft : list native_call -> native_call -> native_reply)
    (src : positive) (p : plan) (w : world)
    (Hsrc : objects w !! src = Some p) (Hvalid : valid_ p = true) :
  (forall fresh : positive,
     objects w !! fresh = None ->
     let w1 := mkworld (<[fresh := p]> (objects w)) (calls w) in
     plan_copy fresh src w = (Normal tt, w1) /\
     objects w1 !! src = Some p /\
     objects w1 !! fresh = Some (mkplan true (handle_ p)) /\
     (run! plan_dtor cufft fresh; plan_dtor cufft src) w1 =
       (Normal tt,
        mkworld (delete src (delete fresh (objects w1)))
          (calls w ++ [cufftDestroy (handle_ p); cufftDestroy (handle_ p)]))) /\
  (forall (dst : positive) (q : plan),
     objects w !! dst = Some q -> dst <> src ->
     let w2 := mkworld (<[dst := p]> (objects w)) (calls w) in
     copy_assign dst src w = (Normal dst, w2) /\
     objects w2 !! src = Some p /\
     objects w2 !! dst = Some (mkplan true (handle_ p)) /\
     (run! plan_dtor cufft dst; plan_dtor cufft src) w2 =
       (Normal tt,
        mkworld (delete src (delete dst (objects w2)))
          (calls w ++ [cufftDestroy (handle_ p); cufftDestroy (handle_ p)]))).
Proof.
  assert (Hp : mkplan true (handle_ p) = p) by (rewrite <- Hvalid; apply plan_eta).
  split.
  - intros fresh Hfresh w1. subst w1.
    assert (Hne' : fresh <> src) by congruence.
    split; [apply plan_copy_run; assumption|].
    split; [live|]. split; [rewrite Hp; live|].
    erewrite (plan_dtor_twice cufft fresh src p p) by (first [live | assumption]).
    simpl. rewrite Hvalid. reflexivity.
  - intros dst q Hdst Hne w2. subst w2.
    split; [eapply copy_assign_run; eassumption|].
    split; [live|]. split; [rewrite Hp; live|].
    erewrite (plan_dtor_twice cufft dst src p p) by (first [live | assumption]).
    simpl. rewrite Hvalid. reflexivity.
Qed.

Lemma copy_shares_release_right_witness :
  (plan_copy 5 2 one_plan =
     (Normal tt, mkworld (<[5%positive := mkplan true 7]> (objects one_plan)) []) /\
   (run! plan_dtor quiet_cufft 5; plan_dtor quiet_cufft 2)
     (mkworld (<[5%positive := mkplan true 7]> (objects one_plan)) []) =
     (Normal tt,
      mkworld (delete 2%positive
                 (delete 5%positive
                    (<[5%positive := mkplan true 7]> (objects one_plan))))
        [cufftDestroy 7; cufftDestroy 7])) /\
  copy_assign 3 2 two_plans =
    (Normal 3%positive,
     mkworld (<[3%positive := mkplan true 7]> (objects two_plans)) []).
Proof.
  split.
  - destruct (copy_shares_release_right quiet_cufft 2 (mkplan true 7) one_plan
                eq_refl eq_refl) as [H _].
    destruct (H 5%positive eq_refl) as (H1 & _ & _ & H2).
    split; [exact H1 | exact H2].
  - destruct (copy_shares_release_right quiet_cufft 2 (mkplan true 7) two_plans
                eq_refl eq_refl) as [_ H].
    destruct (H 3%positive (mkplan false 0) eq_refl) as [H1 _];
      [discriminate | exact H1].
Defined.

(** *** Assignment onto a valid plan *)

(** C10, as stated, fails: the valid plan at 2 holds identifier 7 and is
    assigned from the plan at 5, which holds 7 as well; the assignment
    makes no library call, but the plan at 2 still releases 7 when it is
    destroyed, by copy as by move. *)
Lemma assign_same_identifier_released :
  objects twin_plans !! 2%positive = Some (mkplan true 7) /\
  (exists w',
     copy_assign 2 5 twin_plans = (Normal 2%positive, w') /\
     calls w' = [] /\
     plan_dtor quiet_cufft 2 w' =
       (Normal tt, mkworld (delete 2%positive (objects w')) [cufftDestroy 7])) /\
  (exists w',
     move_assign 2 5 twin_plans = (Normal 2%positive, w') /\
     calls w' = [] /\
     plan_dtor quiet_cufft 2 w' =
       (Normal tt, mkworld (delete 2%positive (objects w')) [cufftDestroy 7])).
Proof.
  split; [reflexivity|]. split.
  - eexists. split; [|split].
    + apply (copy_assign_run 2 5 (mkplan true 7) (mkplan true 7)); reflexivity.
    + reflexivity.
    + erewrite plan_dtor_run by live. reflexivity.
  - eexists. split; [|split].
    + apply (move_assign_run 2 5 (mkplan true 7) (mkplan true 7));
        [reflexivity | reflexivity | discriminate].
    + reflexivity.
    + erewrite plan_dtor_run by live. reflexivity.
Qed.

(** C10, amended: assigning to a valid plan [this], by copy or by move,
    makes no library call, and overwrites both members with those of
    [other] (a move onto itself leaves the flag cleared); what the plan
    releases when it is destroyed afterwards is decided by what it was
    given, so the identifier it held before the assignment is not released
    through it, provided the assigned plan held a different identifier. *)
Theorem assign_releases_nothing
    (cufft : list native_call -> native_call -> native_reply)
    (this other : positive) (q p : plan) (w : world)
    (Hthis : objects w !! this = Some q) (Hvalid : valid_ q = true)
    (Hother : objects w !! other = Some p) :
  (exists w',
     copy_assign this other w = (Normal this, w') /\
     calls w' = calls w /\
     objects w' !! this = Some p /\
     plan_dtor cufft this w' =
       (Normal tt,
        mkworld (delete this (objects w')) (calls w ++ released_by p)) /\
     (handle_ p <> handle_ q -> ~ In (cufftDestroy (handle_ q)) (released_by p))) /\
  (exists w',
     let p' := if decide (this = other) then mkplan false (handle_ p) else p in
     move_assign this other w = (Normal this, w') /\
     calls w' = calls w /\
     objects w' !! this = Some p' /\
     plan_dtor cufft this w' =
       (Normal tt,
        mkworld (delete this (objects w')) (calls w ++ released_by p')) /\
     (handle_ p <> handle_ q -> ~ In (cufftDestroy (handle_ q)) (released_by p'))).
Proof.
  assert (Hrel : forall r : plan,
             handle_ r <> handle_ q -> ~ In (cufftDestroy (handle_ q)) (released_by r)).
  { intros r Hr. unfold released_by. destruct (valid_ r); simpl; [|tauto].
    intros [H|[]]. congruence. }
  split.
  - eexists. split; [eapply copy_assign_run; eassumption|].
    split; [reflexivity|]. split; [live|].
    split; [erewrite plan_dtor_run by live; reflexivity | apply Hrel].
  - destruct (decide (this = other)) as [->|Hne].
    + eexists. cbv zeta.
      split; [apply move_assign_self; eassumption|].
      split; [reflexivity|]. split; [live|].
      split; [erewrite plan_dtor_run by live; reflexivity|].
      apply (Hrel (mkplan false (handle_ p))).
    + eexists. cbv zeta.
      split; [eapply move_assign_run; eassumption|].
      split; [reflexivity|]. split; [rewrite plan_eta; live|].
      split; [|apply (Hrel p)].
      erewrite plan_dtor_run by (rewrite plan_eta; live). reflexivity.
Qed.

Lemma assign_releases_nothing_witness :
  (exists w',
     copy_assign 2 5 rival_plans = (Normal 2%positive, w') /\
     calls w' = [] /\
     objects w' !! 2%positive = Some (mkplan true 9) /\
     plan_dtor quiet_cufft 2 w' =
       (Normal tt, mkworld (delete 2%positive (objects w')) [cufftDestroy 9]) /\
     ~ In (cufftDestroy 7) [cufftDestroy 9]) /\
  (exists w',
     move_assign 2 5 rival_plans = (Normal 2%positive, w') /\
     calls w' = [] /\
     objects w' !! 2%positive = Some (mkplan true 9) /\
     plan_dtor quiet_cufft 2 w' =
       (Normal tt, mkworld (delete 2%positive (objects w')) [cufftDestroy 9]) /\
     ~ In (cufftDestroy 7) [cufftDestroy 9]).
Proof.
  destruct (assign_releases_nothing quiet_cufft 2 5
              (mkplan true 7) (mkplan true 9) rival_plans
              eq_refl eq_refl eq_refl)
    as [(w1 & H1 & H2 & H3 & H4 & H5) (w2 & H6 & H7 & H8 & H9 & H10)].
  split.
  - exists w1. repeat split; try assumption. apply H5. discriminate.
  - exists w2. repeat split; try assumption. apply H10. discriminate.
Defined.

(** *** Construction *)

Lemma construct_success
    (cufft : list native_call -> native_call -> native_reply)
    (this : positive) (c : native_call) (w : world) :
  status (cufft (calls w) c) = CUFFT_SUCCESS ->
  construct cufft this c w =
    (Normal tt,
     mkworld (<[this := constructed (cufft (calls w) c)]> (objects w))
             (calls w ++ [c])).
Proof.
  intros Hok. unfold construct, constructor_body, native_create. run.
  rewrite lookup_insert_eq. simpl. rewrite Hok. simpl.
  rewrite insert_insert_eq. unfold constructed.
  destruct (plan_out (cufft (calls w) c)); reflexivity.
Qed.

(** A failed creation call: the constructor throws what [handle_result]
    throws, and no object is left behind. *)
Lemma construct_failure
    (cufft : list native_call -> native_call -> native_reply)
    (this : positive) (c : native_call) (w : world) (k : error_kind) :
  specified_kind (status (cufft (calls w) c)) = Some k ->
  exists e,
    construct cufft this c w =
      (Thrown e, mkworld (delete this (objects w)) (calls w ++ [c])) /\
    kind_of e = k.
Proof.
  intros Hk. unfold construct, constructor_body, native_create. run.
  rewrite lookup_insert_eq. simpl.
  destruct (status (cufft (calls w) c)); simpl in *; try discriminate;
    injection Hk as <-; eexists;
    (split;
     [ unfold throw; simpl; rewrite insert_insert_eq, delete_insert_eq;
       reflexivity
     | reflexivity ]).
Qed.

(** C7: whenever the creation call reports success, each sizing
    constructor of [plan<type>] ends normally, made exactly that one
    library call, with [type] as its kind argument, and leaves at [this] a
    plan with the flag set, holding what the library stored; the tag
    [transformation_type] of the class is [type]. *)
Theorem sizing_constructors_valid
    (cufft : list native_call -> native_call -> native_reply)
    (type : cufftType) (this : positive) (w : world)
    (nx ny nz rank : int) (n inembed : ptr) (istride idist : int)
    (onembed : ptr) (ostride odist batch : int) :
  transformation_type type = type /\
  (forall c, c = cufftPlan1d nx type 1 ->
     status (cufft (calls w) c) = CUFFT_SUCCESS ->
     plan_1d cufft type this nx w =
       (Normal tt,
        mkworld (<[this := constructed (cufft (calls w) c)]> (objects w))
                (calls w ++ [c]))) /\
  (forall c, c = cufftPlan2d nx ny type ->
     status (cufft (calls w) c) = CUFFT_SUCCESS ->
     plan_2d cufft type this nx ny w =
       (Normal tt,
        mkworld (<[this := constructed (cufft (calls w) c)]> (objects w))
                (calls w ++ [c]))) /\
  (forall c, c = cufftPlan3d nx ny nz type ->
     status (cufft (calls w) c) = CUFFT_SUCCESS ->
     plan_3d cufft type this nx ny nz w =
       (Normal tt,
        mkworld (<[this := constructed (cufft (calls w) c)]> (objects w))
                (calls w ++ [c]))) /\
  (forall c,
     c = cufftPlanMany rank n inembed istride idist onembed ostride odist
           type batch ->
     status (cufft (calls w) c) = CUFFT_SUCCESS ->
     plan_many cufft type this rank n inembed istride idist onembed ostride
       odist batch w =
       (Normal tt,
        mkworld (<[this := constructed (cufft (calls w) c)]> (objects w))
                (calls w ++ [c]))).
Proof.
  split; [reflexivity|].
  repeat split; intros c -> Hok; apply (construct_success cufft this _ w Hok).
Qed.

Lemma sizing_constructors_valid_witness :
  plan_1d granting_cufft CUFFT_R2C 5 8 two_plans =
    (Normal tt,
     mkworld (<[5%positive := mkplan true 42]> (objects two_plans))
             [cufftPlan1d 8 CUFFT_R2C 1]) /\
  plan_2d granting_cufft CUFFT_C2C 5 8 4 two_plans =
    (Normal tt,
     mkworld (<[5%positive := mkplan true 42]> (objects two_plans))
             [cufftPlan2d 8 4 CUFFT_C2C]).
Proof.
  split.
  - destruct (sizing_constructors_valid granting_cufft CUFFT_R2C 5 two_plans
                8 0 0 0 0 0 0 0 0 0 0 0) as (_ & H & _).
    apply (H _ eq_refl eq_refl).
  - destruct (sizing_constructors_valid granting_cufft CUFFT_C2C 5 two_plans
                8 4 0 0 0 0 0 0 0 0 0 0) as (_ & _ & H & _).
    apply (H _ eq_refl eq_refl).
Defined.

(** * Further properties *)

(** ** Construction that fails, and construction undone *)

Lemma handle_result_throws_anywhere
    (res : cufftResult) (e : exception) (w0 w1 : world) :
  handle_result res w0 = (Thrown e, w0) ->
  handle_result res w1 = (Thrown e, w1).
Proof.
  destruct res; simpl; unfold ret, throw; intros H;
    try discriminate; injection H as <-; reflexivity.
Qed.

Lemma handle_result_throws_kind (res : cufftResult) (k : error_kind) (w : world) :
  specified_kind res = Some k ->
  exists e, handle_result res w = (Thrown e, w) /\ kind_of e = k.
Proof.
  intros Hk. destruct res; simpl in *; try discriminate;
    injection Hk as <-; eexists; split; reflexivity.
Qed.

Lemma construct_throws
    (cufft : list native_call -> native_call -> native_reply)
    (this : positive) (c : native_call) (w w0 : world) (e : exception) :
  handle_result (status (cufft (calls w) c)) w0 = (Thrown e, w0) ->
  construct cufft this c w =
    (Thrown e, mkworld (delete this (objects w)) (calls w ++ [c])).
Proof.
  intros He. unfold construct, constructor_body, native_create. run.
  rewrite lookup_insert_eq. simpl.
  erewrite handle_result_throws_anywhere by exact He.
  simpl. rewrite insert_insert_eq, delete_insert_eq. reflexivity.
Qed.

(** X1: when the creation call reports a failure, each sizing constructor
    ends by the very exception [handle_result] throws for that status (of
    the kind specified for it), after exactly that one library call; no
    plan object is left at [this], so nothing will ever be released for
    it. *)
Theorem sizing_constructors_failure
    (cufft : list native_call -> native_call -> native_reply)
    (type : cufftType) (this : positive) (w : world) (k : error_kind)
    (nx ny nz rank : int) (n inembed : ptr) (istride idist : int)
    (onembed : ptr) (ostride odist batch : int)
    (Hfresh : objects w !! this = None) :
  (forall c, c = cufftPlan1d nx type 1 ->
     specified_kind (status (cufft (calls w) c)) = Some k ->
     exists e,
       handle_result (status (cufft (calls w) c)) w = (Thrown e, w) /\
       plan_1d cufft type this nx w =
         (Thrown e, mkworld (objects w) (calls w ++ [c])) /\
       kind_of e = k) /\
  (forall c, c = cufftPlan2d nx ny type ->
     specified_kind (status (cufft (calls w) c)) = Some k ->
     exists e,
       handle_result (status (cufft (calls w) c)) w = (Thrown e, w) /\
       plan_2d cufft type this nx ny w =
         (Thrown e, mkworld (objects w) (calls w ++ [c])) /\
       kind_of e = k) /\
  (forall c, c = cufftPlan3d nx ny nz type ->
     specified_kind (status (cufft (calls w) c)) = Some k ->
     exists e,
       handle_result (status (cufft (calls w) c)) w = (Thrown e, w) /\
       plan_3d cufft type this nx ny nz w =
         (Thrown e, mkworld (objects w) (calls w ++ [c])) /\
       kind_of e = k) /\
  (forall c,
     c = cufftPlanMany rank n inembed istride idist onembed ostride odist
           type batch ->
     specified_kind (status (cufft (calls w) c)) = Some k ->
     exists e,
       handle_result (status (cufft (calls w) c)) w = (Thrown e, w) /\
       plan_many cufft type this rank n inembed istride idist onembed
         ostride odist batch w =
         (Thrown e, mkworld (objects w) (calls w ++ [c])) /\
       kind_of e = k).
Proof.
  repeat split; intros c -> Hk;
    destruct (handle_result_throws_kind _ k w Hk) as (e & He & Hkind);
    exists e; (split; [exact He|]); (split; [|exact Hkind]);
    rewrite <- (delete_id _ _ Hfresh) at 1;
    apply (construct_throws cufft this _ w w e He).
Qed.

Lemma sizing_constructors_failure_witness :
  plan_1d (constant_cufft CUFFT_ALLOC_FAILED) CUFFT_R2C 5 8 two_plans =
    (Thrown bad_alloc, mkworld (objects two_plans) [cufftPlan1d 8 CUFFT_R2C 1]).
Proof.
  destruct (sizing_constructors_failure (constant_cufft CUFFT_ALLOC_FAILED)
              CUFFT_R2C 5 two_plans allocation_failure_kind
              8 0 0 0 0 0 0 0 0 0 0 0 eq_refl) as (H & _).
  destruct (H _ eq_refl eq_refl) as (e & He & Hrun & _).
  injection He as <-. exact Hrun.
Defined.

Lemma construct_then_destroy
    (cufft : list native_call -> native_call -> native_reply)
    (this : positive) (c : native_call) (w : world) :
  objects w !! this = None ->
  status (cufft (calls w) c) = CUFFT_SUCCESS ->
  (run! construct cufft this c; plan_dtor cufft this) w =
    (Normal tt,
     mkworld (objects w)
       (calls w ++ [c; cufftDestroy (default 0 (plan_out (cufft (calls w) c)))])).
Proof.
  intros Hfresh Hok. unfold bind at 1.
  rewrite (construct_success cufft this c w Hok).
  erewrite plan_dtor_run by live. simpl.
  rewrite (delete_insert_id _ _ _ Hfresh), <- app_assoc. reflexivity.
Qed.

(** X2: a sizing constructor that succeeds, followed by the destructor,
    makes exactly two library calls, the creation call and [cufftDestroy]
    on the identifier the library stored (on 0, the default member
    initialiser, if it stored none), and leaves the store of objects as it
    was. *)
Theorem construct_destroy_round_trip
    (cufft : list native_call -> native_call -> native_reply)
    (type : cufftType) (this : positive) (w : world)
    (nx ny nz rank : int) (n inembed : ptr) (istride idist : int)
    (onembed : ptr) (ostride odist batch : int)
    (Hfresh : objects w !! this = None) :
  (forall c, c = cufftPlan1d nx type 1 ->
     status (cufft (calls w) c) = CUFFT_SUCCESS ->
     (run! plan_1d cufft type this nx; plan_dtor cufft this) w =
       (Normal tt,
        mkworld (objects w)
          (calls w ++ [c; cufftDestroy (default 0 (plan_out (cufft (calls w) c)))]))) /\
  (forall c, c = cufftPlan2d nx ny type ->
     status (cufft (calls w) c) = CUFFT_SUCCESS ->
     (run! plan_2d cufft type this nx ny; plan_dtor cufft this) w =
       (Normal tt,
        mkworld (objects w)
          (calls w ++ [c; cufftDestroy (default 0 (plan_out (cufft (calls w) c)))]))) /\
  (forall c, c = cufftPlan3d nx ny nz type ->
     status (cufft (calls w) c) = CUFFT_SUCCESS ->
     (run! plan_3d cufft type this nx ny nz; plan_dtor cufft this) w =
       (Normal tt,
        mkworld (objects w)
          (calls w ++ [c; cufftDestroy (default 0 (plan_out (cufft (calls w) c)))]))) /\
  (forall c,
     c = cufftPlanMany rank n inembed istride idist onembed ostride odist
           type batch ->
     status (cufft (calls w) c) = CUFFT_SUCCESS ->
     (run! plan_many cufft type this rank n inembed istride idist onembed
             ostride odist batch; plan_dtor cufft this) w =
       (Normal tt,
        mkworld (objects w)
          (calls w ++ [c; cufftDestroy (default 0 (plan_out (cufft (calls w) c)))]))).
Proof.
  repeat split; intros c -> Hok;
    apply (construct_then_destroy cufft this _ w Hfresh Hok).
Qed.

Lemma construct_destroy_round_trip_witness :
  (run! plan_3d granting_cufft CUFFT_Z2Z 5 8 4 2; plan_dtor granting_cufft 5)
    two_plans =
    (Normal tt,
     mkworld (objects two_plans) [cufftPlan3d 8 4 2 CUFFT_Z2Z; cufftDestroy 42]) /\
  (run! plan_1d quiet_cufft CUFFT_R2C 5 8; plan_dtor quiet_cufft 5) two_plans =
    (Normal tt,
     mkworld (objects two_plans) [cufftPlan1d 8 CUFFT_R2C 1; cufftDestroy 0]).
Proof.
  split.
  - destruct (construct_destroy_round_trip granting_cufft CUFFT_Z2Z 5 two_plans
                8 4 2 0 0 0 0 0 0 0 0 0 eq_refl) as (_ & _ & H & _).
    apply (H _ eq_refl eq_refl).
  - destruct (construct_destroy_round_trip quiet_cufft CUFFT_R2C 5 two_plans
                8 0 0 0 0 0 0 0 0 0 0 0 eq_refl) as (H & _).
    apply (H _ eq_refl eq_refl).
Defined.

(** ** What the [noexcept] members and the destructor never do *)

(** X3: the members declared [noexcept] (default, copy and move
    construction, copy and move assignment, [get]) never end by an
    exception and never call the library, from any world and for any
    arguments. *)
Theorem noexcept_members_quiet (this other : positive) :
  (never_throws (plan_default this) /\ silent (plan_default this)) /\
  (never_throws (plan_copy this other) /\ silent (plan_copy this other)) /\
  (never_throws (copy_assign this other) /\ silent (copy_assign this other)) /\
  (never_throws (plan_move this other) /\ silent (plan_move this other)) /\
  (never_throws (move_assign this other) /\ silent (move_assign this other)) /\
  (never_throws (get this) /\ silent (get this)).
Proof.
  unfold never_throws, silent, plan_default, plan_copy, copy_assign,
    plan_move, move_assign, get, begin_lifetime, bind, ret, load, store.
  repeat split; intros w; intros;
    repeat (simpl;
            match goal with
            | |- context [match ?m !! ?i with _ => _ end] =>
                destruct (m !! i) eqn:?
            end);
    simpl; congruence.
Qed.

(** X4: the destructor never ends by an exception, whatever status the
    library returns for [cufftDestroy]: a failed release goes unnoticed,
    and the object is gone either way. *)
Theorem plan_dtor_never_throws
    (cufft : list native_call -> native_call -> native_reply)
    (this : positive) :
  never_throws (plan_dtor cufft this) /\
  (forall (w : world) (p : plan),
     objects w !! this = Some p ->
     fst (plan_dtor cufft this w) = Normal tt /\
     objects (snd (plan_dtor cufft this w)) !! this = None).
Proof.
  split.
  - intros w e. destruct (objects w !! this) as [p|] eqn:Hp.
    + rewrite (plan_dtor_run cufft this p w Hp). discriminate.
    + unfold plan_dtor, bind, load. rewrite Hp. discriminate.
  - intros w p Hp. rewrite (plan_dtor_run cufft this p w Hp). simpl.
    split; [reflexivity | apply lookup_delete_eq].
Qed.

Lemma plan_dtor_never_throws_witness :
  fst (plan_dtor (constant_cufft CUFFT_INVALID_PLAN) 2 two_plans) = Normal tt /\
  objects (snd (plan_dtor (constant_cufft CUFFT_INVALID_PLAN) 2 two_plans))
    !! 2%positive = None.
Proof.
  destruct (plan_dtor_never_throws (constant_cufft CUFFT_INVALID_PLAN) 2) as [_ H].
  apply (H two_plans (mkplan true 7)). reflexivity.
Defined.

(** ** Calls forwarded at run time *)

Lemma handle_result_state (res : cufftResult) (w : world) :
  snd (handle_result res w) = w.
Proof. destruct res; reflexivity. Qed.

Lemma handle_result_outcome (res : cufftResult) (w : world) :
  (res = CUFFT_SUCCESS -> fst (handle_result res w) = Normal tt) /\
  (forall k, specified_kind res = Some k ->
     exists e, fst (handle_result res w) = Thrown e /\ kind_of e = k).
Proof.
  split.
  - intros ->. reflexivity.
  - intros k Hk. destruct res; simpl in *; try discriminate;
      injection Hk as <-; eexists; split; reflexivity.
Qed.

Lemma forward_run
    (cufft : list native_call -> native_call -> native_reply)
    (routine : cufftHandle -> ptr -> ptr -> native_call)
    (this : positive) (p : plan) (idata odata : ptr) (w : world) :
  objects w !! this = Some p ->
  forward cufft routine this idata odata w =
    handle_result (status (cufft (calls w) (routine (handle_ p) idata odata)))
      (mkworld (objects w) (calls w ++ [routine (handle_ p) idata odata])).
Proof. intros Hp. unfold forward. run. reflexivity. Qed.

Lemma execute_accepted_inv
    (cufft : list native_call -> native_call -> native_reply)
    (type : cufftType) (I O : ctype) (f : positive -> ptr -> ptr -> M unit) :
  execute cufft type I O = inr f ->
  type_chooser I O = Some type /\
  exists routine, native_exec type = Some routine /\ f = forward cufft routine.
Proof.
  unfold execute, assert_chooser, assert_mapper, transformation_type.
  destruct I, O; simpl; try discriminate;
    destruct type; simpl; try discriminate;
    intros [= <-]; (split; [reflexivity|]);
    eexists; split; reflexivity.
Qed.

(** X5: an accepted [execute<I, O>] of [plan<type>], run on a live plan,
    makes exactly one library call, the execute routine of kind [type] on
    the identifier the plan holds and the caller's two pointers; it changes
    no plan object; it ends normally when the library reports success and
    by the exception of the specified kind otherwise.  The flag [valid_] is
    not consulted: the call is made for a plan that is not valid too. *)
Theorem execute_forwards_once
    (cufft : list native_call -> native_call -> native_reply)
    (type : cufftType) (I O : ctype) (f : positive -> ptr -> ptr -> M unit)
    (this : positive) (p : plan) (idata odata : ptr) (w : world)
    (Hacc : execute cufft type I O = inr f)
    (Hlive : objects w !! this = Some p) :
  exists routine,
    native_exec type = Some routine /\
    let c := routine (handle_ p) idata odata in
    snd (f this idata odata w) = mkworld (objects w) (calls w ++ [c]) /\
    (status (cufft (calls w) c) = CUFFT_SUCCESS ->
     fst (f this idata odata w) = Normal tt) /\
    (forall k, specified_kind (status (cufft (calls w) c)) = Some k ->
       exists e, fst (f this idata odata w) = Thrown e /\ kind_of e = k).
Proof.
  destruct (execute_accepted_inv cufft type I O f Hacc)
    as (_ & routine & Hr & ->).
  exists routine. split; [exact Hr|]. cbv zeta.
  rewrite (forward_run cufft routine this p idata odata w Hlive).
  split; [apply handle_result_state | apply handle_result_outcome].
Qed.

Lemma execute_forwards_once_witness :
  exists routine,
    native_exec CUFFT_C2R = Some routine /\
    let c := routine 0 100 200 in
    snd (forward (constant_cufft CUFFT_EXEC_FAILED) cufftExecC2R 3 100 200 two_plans) =
      mkworld (objects two_plans) [c].
Proof.
  destruct (execute_forwards_once (constant_cufft CUFFT_EXEC_FAILED)
              CUFFT_C2R cufftComplex cufftReal
              (forward (constant_cufft CUFFT_EXEC_FAILED) cufftExecC2R)
              3 (mkplan false 0) 100 200 two_plans eq_refl eq_refl)
    as (routine & Hr & Hs & _).
  exists routine. split; [exact Hr | exact Hs].
Defined.

(** X6: [set_stream] on a live plan makes exactly one library call,
    [cufftSetStream] on the identifier the plan holds; it changes no plan
    object, whatever the status, so a plan whose [set_stream] threw is
    still released by its destructor as before. *)
Theorem set_stream_keeps_plan
    (cufft : list native_call -> native_call -> native_reply)
    (this : positive) (p : plan) (stream : cudaStream_t) (w : world)
    (Hlive : objects w !! this = Some p) :
  let c := cufftSetStream (handle_ p) stream in
  let w' := mkworld (objects w) (calls w ++ [c]) in
  snd (set_stream cufft this stream w) = w' /\
  (status (cufft (calls w) c) = CUFFT_SUCCESS ->
   fst (set_stream cufft this stream w) = Normal tt) /\
  (forall k, specified_kind (status (cufft (calls w) c)) = Some k ->
     exists e, fst (set_stream cufft this stream w) = Thrown e /\ kind_of e = k) /\
  plan_dtor cufft this w' =
    (Normal tt,
     mkworld (delete this (objects w)) (calls w ++ [c] ++ released_by p)).
Proof.
  intros c w'.
  assert (Hrun : set_stream cufft this stream w =
                 handle_result (status (cufft (calls w) c)) w').
  { unfold set_stream. run. reflexivity. }
  rewrite Hrun.
  split; [apply handle_result_state|].
  split; [apply handle_result_outcome|].
  split; [apply handle_result_outcome|].
  subst w'. erewrite plan_dtor_run by live. simpl.
  rewrite <- app_assoc. reflexivity.
Qed.

Lemma set_stream_keeps_plan_witness :
  snd (set_stream (constant_cufft CUFFT_INVALID_VALUE) 2 11 two_plans) =
    mkworld (objects two_plans) [cufftSetStream 7 11] /\
  plan_dtor (constant_cufft CUFFT_INVALID_VALUE) 2
    (mkworld (objects two_plans) [cufftSetStream 7 11]) =
    (Normal tt,
     mkworld (delete 2%positive (objects two_plans))
       [cufftSetStream 7 11; cufftDestroy 7]).
Proof.
  destruct (set_stream_keeps_plan (constant_cufft CUFFT_INVALID_VALUE)
              2 (mkplan true 7) 11 two_plans eq_refl) as (H1 & _ & _ & H2).
  split; [exact H1 | exact H2].
Defined.

(** ** Ownership across moves and copies *)

Lemma world_eta (w : world) : mkworld (objects w) (calls w) = w.
Proof. destruct w; reflexivity. Qed.

Lemma bind_run {A B} (m : M A) (k : A -> M B) (a : A) (w w' : world) :
  m w = (Normal a, w') -> bind m k w = k a w'.
Proof. intros H. unfold bind. rewrite H. reflexivity. Qed.

(** X7: after a move out of a valid plan, by the move constructor into any
    new object or by move assignment into any other live plan, destroying
    source and destination, in either order, makes exactly one library call
    in all: [cufftDestroy] on the identifier the source held.  (What the
    target of the assignment held before is not released.) *)
Theorem move_then_destroy_releases_once
    (cufft : list native_call -> native_call -> native_reply)
    (src : positive) (p : plan) (w : world)
    (Hsrc : objects w !! src = Some p) (Hvalid : valid_ p = true) :
  let once := calls w ++ [cufftDestroy (handle_ p)] in
  (forall fresh : positive,
     objects w !! fresh = None ->
     (exists w',
        (run! plan_move fresh src;
         run! plan_dtor cufft src; plan_dtor cufft fresh) w = (Normal tt, w') /\
        calls w' = once) /\
     (exists w',
        (run! plan_move fresh src;
         run! plan_dtor cufft fresh; plan_dtor cufft src) w = (Normal tt, w') /\
        calls w' = once)) /\
  (forall (dst : positive) (q : plan),
     objects w !! dst = Some q -> dst <> src ->
     (exists w',
        (run! move_assign dst src;
         run! plan_dtor cufft src; plan_dtor cufft dst) w = (Normal tt, w') /\
        calls w' = once) /\
     (exists w',
        (run! move_assign dst src;
         run! plan_dtor cufft dst; plan_dtor cufft src) w = (Normal tt, w') /\
        calls w' = once)).
Proof.
  intros once. subst once. split.
  - intros fresh Hfresh.
    assert (Hne' : fresh <> src) by congruence.
    split; eexists.
    + split.
      * erewrite bind_run by (apply plan_move_run; eassumption).
        erewrite (plan_dtor_twice cufft src fresh) by (first [live | congruence]).
        reflexivity.
      * simpl. rewrite Hvalid. reflexivity.
    + split.
      * erewrite bind_run by (apply plan_move_run; eassumption).
        erewrite (plan_dtor_twice cufft fresh src) by (first [live | congruence]).
        reflexivity.
      * simpl. rewrite Hvalid. reflexivity.
  - intros dst q Hdst Hne.
    split; eexists.
    + split.
      * erewrite bind_run by (eapply move_assign_run; eassumption).
        erewrite (plan_dtor_twice cufft src dst) by (first [live | congruence]).
        reflexivity.
      * simpl. rewrite Hvalid. reflexivity.
    + split.
      * erewrite bind_run by (eapply move_assign_run; eassumption).
        erewrite (plan_dtor_twice cufft dst src) by (first [live | congruence]).
        reflexivity.
      * simpl. rewrite Hvalid. reflexivity.
Qed.

Lemma move_then_destroy_releases_once_witness :
  (exists w',
     (run! plan_move 5 2;
      run! plan_dtor quiet_cufft 5; plan_dtor quiet_cufft 2) one_plan =
       (Normal tt, w') /\
     calls w' = [cufftDestroy 7]) /\
  (exists w',
     (run! move_assign 5 2;
      run! plan_dtor quiet_cufft 5; plan_dtor quiet_cufft 2) rival_plans =
       (Normal tt, w') /\
     calls w' = [cufftDestroy 7]).
Proof.
  split.
  - destruct (move_then_destroy_releases_once quiet_cufft 2 (mkplan true 7)
                one_plan eq_refl eq_refl) as [H _].
    destruct (H 5%positive eq_refl) as [_ H']. exact H'.
  - destruct (move_then_destroy_releases_once quiet_cufft 2 (mkplan true 7)
                rival_plans eq_refl eq_refl) as [_ H].
    destruct (H 5%positive (mkplan true 9) eq_refl) as [_ H'];
      [discriminate | exact H'].
Defined.

(** X8: [get] does not look at the flag: after a move, by the move
    constructor into any new object or by move assignment into any other
    live plan, the source, no longer valid, still returns the identifier
    it gave away, the same one the destination returns. *)
Theorem get_after_move
    (src : positive) (p : plan) (w : world)
    (Hsrc : objects w !! src = Some p) :
  (forall fresh : positive,
     objects w !! fresh = None ->
     exists w',
       plan_move fresh src w = (Normal tt, w') /\
       get src w' = (Normal (handle_ p), w') /\
       get fresh w' = (Normal (handle_ p), w') /\
       (valid_ <$> objects w' !! src) = Some false) /\
  (forall (dst : positive) (q : plan),
     objects w !! dst = Some q -> dst <> src ->
     exists w',
       move_assign dst src w = (Normal dst, w') /\
       get src w' = (Normal (handle_ p), w') /\
       get dst w' = (Normal (handle_ p), w') /\
       (valid_ <$> objects w' !! src) = Some false).
Proof.
  split.
  - intros fresh Hfresh.
    assert (Hne' : fresh <> src) by congruence.
    eexists.
    split; [apply plan_move_run; eassumption|]. unfold get.
    split; [erewrite load_live by live; reflexivity|].
    split; [erewrite load_live by live; reflexivity|].
    simpl. rewrite lookup_insert_eq. reflexivity.
  - intros dst q Hdst Hne. eexists.
    split; [eapply move_assign_run; eassumption|]. unfold get.
    split; [erewrite load_live by live; reflexivity|].
    split; [erewrite load_live by live; reflexivity|].
    simpl. rewrite lookup_insert_eq. reflexivity.
Qed.

Lemma get_after_move_witness :
  (exists w',
     plan_move 5 2 one_plan = (Normal tt, w') /\
     get 2 w' = (Normal 7, w') /\
     get 5 w' = (Normal 7, w')) /\
  (exists w',
     move_assign 3 2 two_plans = (Normal 3%positive, w') /\
     get 2 w' = (Normal 7, w') /\
     get 3 w' = (Normal 7, w')).
Proof.
  split.
  - destruct (get_after_move 2 (mkplan true 7) one_plan eq_refl) as [H _].
    destruct (H 5%positive eq_refl) as (w' & H1 & H2 & H3 & _).
    exists w'. repeat split; assumption.
  - destruct (get_after_move 2 (mkplan true 7) two_plans eq_refl) as [_ H].
    destruct (H 3%positive (mkplan false 0) eq_refl) as (w' & H1 & H2 & H3 & _);
      [discriminate|].
    exists w'. repeat split; assumption.
Defined.

(** X9: copying a plan that is not valid, by the copy constructor into any
    new object or by copy assignment into any other live plan, is
    harmless: the copy holds the same identifier and is not valid either,
    the source is as it was, and destroying both makes no library call. *)
Theorem copy_of_invalid_releases_nothing
    (cufft : list native_call -> native_call -> native_reply)
    (src : positive) (p : plan) (w : world)
    (Hsrc : objects w !! src = Some p) (Hinvalid : valid_ p = false) :
  (forall fresh : positive,
     objects w !! fresh = None ->
     let w1 := mkworld (<[fresh := p]> (objects w)) (calls w) in
     plan_copy fresh src w = (Normal tt, w1) /\
     objects w1 !! fresh = Some (mkplan false (handle_ p)) /\
     objects w1 !! src = Some p /\
     exists w',
       (run! plan_dtor cufft fresh; plan_dtor cufft src) w1 = (Normal tt, w') /\
       calls w' = calls w) /\
  (forall (dst : positive) (q : plan),
     objects w !! dst = Some q -> dst <> src ->
     let w2 := mkworld (<[dst := p]> (objects w)) (calls w) in
     copy_assign dst src w = (Normal dst, w2) /\
     objects w2 !! dst = Some (mkplan false (handle_ p)) /\
     objects w2 !! src = Some p /\
     exists w',
       (run! plan_dtor cufft dst; plan_dtor cufft src) w2 = (Normal tt, w') /\
       calls w' = calls w).
Proof.
  assert (Hp : mkplan false (handle_ p) = p)
    by (rewrite <- Hinvalid; apply plan_eta).
  split.
  - intros fresh Hfresh w1. subst w1.
    assert (Hne' : fresh <> src) by congruence.
    split; [apply plan_copy_run; assumption|].
    split; [rewrite Hp; live|]. split; [live|].
    eexists. split.
    + erewrite (plan_dtor_twice cufft fresh src p p) by (first [live | assumption]).
      reflexivity.
    + simpl. rewrite Hinvalid. simpl. apply app_nil_r.
  - intros dst q Hdst Hne w2. subst w2.
    split; [eapply copy_assign_run; eassumption|].
    split; [rewrite Hp; live|]. split; [live|].
    eexists. split.
    + erewrite (plan_dtor_twice cufft dst src p p) by (first [live | assumption]).
      reflexivity.
    + simpl. rewrite Hinvalid. simpl. apply app_nil_r.
Qed.

Lemma copy_of_invalid_releases_nothing_witness :
  (plan_copy 5 2 one_invalid_plan =
     (Normal tt,
      mkworld (<[5%positive := mkplan false 7]> (objects one_invalid_plan)) []) /\
   exists w',
     (run! plan_dtor quiet_cufft 5; plan_dtor quiet_cufft 2)
       (mkworld (<[5%positive := mkplan false 7]> (objects one_invalid_plan)) []) =
       (Normal tt, w') /\
     calls w' = []) /\
  copy_assign 2 3 two_plans =
    (Normal 2%positive,
     mkworld (<[2%positive := mkplan false 0]> (objects two_plans)) []).
Proof.
  split.
  - destruct (copy_of_invalid_releases_nothing quiet_cufft 2 (mkplan false 7)
                one_invalid_plan eq_refl eq_refl) as [H _].
    destruct (H 5%positive eq_refl) as (H1 & _ & _ & H2).
    split; [exact H1 | exact H2].
  - destruct (copy_of_invalid_releases_nothing quiet_cufft 3 (mkplan false 0)
                two_plans eq_refl eq_refl) as [_ H].
    destruct (H 2%positive (mkplan true 7) eq_refl) as [H1 _];
      [discriminate | exact H1].
Defined.

(** X10: assigning a plan to itself.  Copy assignment changes nothing.
    Move assignment copies the flag and then clears it in the same object:
    a valid plan ends up not valid while still holding its identifier, and
    its destructor then makes no library call, so the resource is never
    released. *)
Theorem self_assignment
    (cufft : list native_call -> native_call -> native_reply)
    (this : positive) (p : plan) (w : world)
    (Hlive : objects w !! this = Some p) :
  copy_assign this this w = (Normal this, w) /\
  (exists w',
     move_assign this this w = (Normal this, w') /\
     objects w' !! this = Some (mkplan false (handle_ p)) /\
     plan_dtor cufft this w' =
       (Normal tt, mkworld (delete this (objects w)) (calls w))).
Proof.
  split.
  - rewrite (copy_assign_run this this p p w Hlive Hlive).
    rewrite (insert_id _ _ _ Hlive), world_eta. reflexivity.
  - eexists. split; [apply move_assign_self; eassumption|].
    split; [live|].
    erewrite plan_dtor_run by live. simpl.
    rewrite delete_insert_eq, app_nil_r. reflexivity.
Qed.

Lemma self_assignment_witness :
  copy_assign 2 2 two_plans = (Normal 2%positive, two_plans) /\
  exists w',
    move_assign 2 2 two_plans = (Normal 2%positive, w') /\
    objects w' !! 2%positive = Some (mkplan false 7) /\
    plan_dtor quiet_cufft 2 w' =
      (Normal tt, mkworld (delete 2%positive (objects two_plans)) []).
Proof.
  apply (self_assignment quiet_cufft 2 (mkplan true 7) two_plans).
  reflexivity.
Defined.

(** ** Single ownership as an invariant *)

Lemma unique_owner_insert_invalid (this : positive) (h : cufftHandle) (w : world) :
  unique_owner w ->
  unique_owner (mkworld (<[this := mkplan false h]> (objects w)) (calls w)).
Proof.
  intros Hinv a b pa pb Ha Hb Hva Hvb Hh. simpl in *.
  destruct (decide (this = a)) as [->|Hna].
  { rewrite lookup_insert_eq in Ha. injection Ha as <-. discriminate. }
  destruct (decide (this = b)) as [->|Hnb].
  { rewrite lookup_insert_eq in Hb. injection Hb as <-. discriminate. }
  rewrite lookup_insert_ne in Ha by assumption.
  rewrite lookup_insert_ne in Hb by assumption.
  eapply Hinv; eassumption.
Qed.

Lemma unique_owner_insert_unowned (this : positive) (h : cufftHandle) (w : world) :
  unique_owner w -> unowned h w ->
  unique_owner (mkworld (<[this := mkplan true h]> (objects w)) (calls w)).
Proof.
  intros Hinv Hfree a b pa pb Ha Hb Hva Hvb Hh. simpl in *.
  destruct (decide (a = b)) as [Hab|Hab]; [exact Hab|]. exfalso.
  destruct (decide (this = a)) as [Hea|Hna];
    destruct (decide (this = b)) as [Heb|Hnb]; [congruence|subst a|subst b|].
  - rewrite lookup_insert_eq in Ha. injection Ha as <-.
    rewrite lookup_insert_ne in Hb by assumption.
    apply (Hfree b pb Hb Hvb). symmetry. exact Hh.
  - rewrite lookup_insert_eq in Hb. injection Hb as <-.
    rewrite lookup_insert_ne in Ha by assumption.
    apply (Hfree a pa Ha Hva). exact Hh.
  - rewrite lookup_insert_ne in Ha by assumption.
    rewrite lookup_insert_ne in Hb by assumption.
    apply Hab. eapply Hinv; eassumption.
Qed.

Lemma unique_owner_delete (this : positive) (log : list native_call) (w : world) :
  unique_owner w -> unique_owner (mkworld (delete this (objects w)) log).
Proof.
  intros Hinv a b pa pb Ha Hb. simpl in *.
  apply lookup_delete_Some in Ha as [_ Ha].
  apply lookup_delete_Some in Hb as [_ Hb].
  eapply Hinv; eassumption.
Qed.

(** Once the owner gave its flag away, nobody holds its identifier. *)
Lemma unowned_after_invalidate (src : positive) (p : plan) (w : world) :
  unique_owner w -> objects w !! src = Some p -> valid_ p = true ->
  unowned (handle_ p)
    (mkworld (<[src := mkplan false (handle_ p)]> (objects w)) (calls w)).
Proof.
  intros Hinv Hsrc Hvalid a pa Ha Hva Hh. simpl in *.
  destruct (decide (src = a)) as [->|Hna].
  - rewrite lookup_insert_eq in Ha. injection Ha as <-. discriminate.
  - rewrite lookup_insert_ne in Ha by assumption.
    apply Hna. symmetry. eapply Hinv; eassumption.
Qed.

(** X11: in any world where single ownership holds, it still holds after
    default construction of any object, after the move constructor from any
    live plan into any new object, after move assignment between any two
    different live plans, and after the destructor of any object; the copy
    constructor breaks it whenever the source is valid. *)
Theorem unique_owner_kept
    (cufft : list native_call -> native_call -> native_reply)
    (w : world) (Hinv : unique_owner w) :
  (forall this : positive, unique_owner (snd (plan_default this w))) /\
  (forall (src fresh : positive) (p : plan),
     objects w !! src = Some p -> objects w !! fresh = None ->
     unique_owner (snd (plan_move fresh src w))) /\
  (forall (src dst : positive) (p q : plan),
     objects w !! src = Some p -> objects w !! dst = Some q -> dst <> src ->
     unique_owner (snd (move_assign dst src w))) /\
  (forall this : positive, unique_owner (snd (plan_dtor cufft this w))) /\
  (forall (src fresh : positive) (p : plan),
     objects w !! src = Some p -> objects w !! fresh = None ->
     valid_ p = true ->
     ~ unique_owner (snd (plan_copy fresh src w))).
Proof.
  split; [|split; [|split; [|split]]].
  - intros this. apply unique_owner_insert_invalid. exact Hinv.
  - intros src fresh p Hsrc Hfresh.
    assert (Hne' : fresh <> src) by congruence.
    rewrite (plan_move_run fresh src p w Hsrc Hne'). simpl.
    rewrite insert_insert_ne by congruence.
    destruct (valid_ p) eqn:Hvalid.
    + exact (unique_owner_insert_unowned fresh (handle_ p)
               (mkworld (<[src := mkplan false (handle_ p)]> (objects w)) (calls w))
               (unique_owner_insert_invalid src (handle_ p) w Hinv)
               (unowned_after_invalidate src p w Hinv Hsrc Hvalid)).
    + exact (unique_owner_insert_invalid fresh (handle_ p)
               (mkworld (<[src := mkplan false (handle_ p)]> (objects w)) (calls w))
               (unique_owner_insert_invalid src (handle_ p) w Hinv)).
  - intros src dst p q Hsrc Hdst Hne.
    rewrite (move_assign_run dst src p q w Hsrc Hdst Hne). simpl.
    rewrite insert_insert_ne by congruence.
    destruct (valid_ p) eqn:Hvalid.
    + exact (unique_owner_insert_unowned dst (handle_ p)
               (mkworld (<[src := mkplan false (handle_ p)]> (objects w)) (calls w))
               (unique_owner_insert_invalid src (handle_ p) w Hinv)
               (unowned_after_invalidate src p w Hinv Hsrc Hvalid)).
    + exact (unique_owner_insert_invalid dst (handle_ p)
               (mkworld (<[src := mkplan false (handle_ p)]> (objects w)) (calls w))
               (unique_owner_insert_invalid src (handle_ p) w Hinv)).
  - intros this. destruct (objects w !! this) as [p|] eqn:Hp.
    + rewrite (plan_dtor_run cufft this p w Hp). simpl.
      apply unique_owner_delete. exact Hinv.
    + unfold plan_dtor, bind, load. rewrite Hp. simpl. exact Hinv.
  - intros src fresh p Hsrc Hfresh Hvalid Hbad.
    assert (Hne' : fresh <> src) by congruence.
    rewrite (plan_copy_run fresh src p w Hsrc) in Hbad. simpl in Hbad.
    apply Hne'. apply (Hbad fresh src p p); simpl.
    + apply lookup_insert_eq.
    + rewrite lookup_insert_ne by assumption. exact Hsrc.
    + exact Hvalid.
    + exact Hvalid.
    + reflexivity.
Qed.

Lemma two_plans_unique : unique_owner two_plans.
Proof.
  intros a b pa pb Ha Hb Hva Hvb _. unfold two_plans in *. simpl in *.
  destruct (decide (a = 3%positive)) as [->|Ha3].
  { rewrite lookup_insert_eq in Ha. injection Ha as <-. discriminate. }
  destruct (decide (b = 3%positive)) as [->|Hb3].
  { rewrite lookup_insert_eq in Hb. injection Hb as <-. discriminate. }
  rewrite lookup_insert_ne in Ha by congruence.
  rewrite lookup_insert_ne in Hb by congruence.
  apply lookup_insert_Some in Ha as [[<- _]|[_ Ha]];
    [|rewrite lookup_empty in Ha; discriminate].
  apply lookup_insert_Some in Hb as [[<- _]|[_ Hb]];
    [|rewrite lookup_empty in Hb; discriminate].
  reflexivity.
Qed.

Lemma no_plans_unique : unique_owner no_plans.
Proof.
  intros a b pa pb Ha. unfold no_plans in Ha. simpl in Ha.
  rewrite lookup_empty in Ha. discriminate.
Qed.

Lemma one_plan_unique : unique_owner one_plan.
Proof.
  intros a b pa pb Ha Hb _ _ _. unfold one_plan in *. simpl in *.
  apply lookup_insert_Some in Ha as [[<- _]|[_ Ha]];
    [|rewrite lookup_empty in Ha; discriminate].
  apply lookup_insert_Some in Hb as [[<- _]|[_ Hb]];
    [|rewrite lookup_empty in Hb; discriminate].
  reflexivity.
Qed.

Lemma unique_owner_kept_witness :
  unique_owner (snd (plan_default 5 no_plans)) /\
  unique_owner (snd (plan_move 5 2 one_plan)) /\
  unique_owner (snd (plan_dtor quiet_cufft 2 one_plan)) /\
  ~ unique_owner (snd (plan_copy 5 2 one_plan)) /\
  unique_owner (snd (move_assign 3 2 two_plans)).
Proof.
  destruct (unique_owner_kept quiet_cufft no_plans no_plans_unique)
    as (H0 & _).
  destruct (unique_owner_kept quiet_cufft one_plan one_plan_unique)
    as (_ & H1 & _ & H2 & H3).
  destruct (unique_owner_kept quiet_cufft two_plans two_plans_unique)
    as (_ & _ & H4 & _).
  split; [apply H0|].
  split; [apply (H1 2%positive 5%positive (mkplan true 7)); reflexivity|].
  split; [apply H2|].
  split; [apply (H3 2%positive 5%positive (mkplan true 7)); reflexivity|].
  apply (H4 2%positive 3%positive (mkplan true 7) (mkplan false 0));
    [reflexivity | reflexivity | discriminate].
Defined.

(** X12: a sizing constructor that succeeds keeps single ownership,
    provided the identifier the library stored (0 if it stored none) is
    held by no valid plan yet. *)
Theorem unique_owner_construct
    (cufft : list native_call -> native_call -> native_reply)
    (type : cufftType) (this : positive) (w : world)
    (nx ny nz rank : int) (n inembed : ptr) (istride idist : int)
    (onembed : ptr) (ostride odist batch : int)
    (Hinv : unique_owner w) :
  (forall c, c = cufftPlan1d nx type 1 ->
     status (cufft (calls w) c) = CUFFT_SUCCESS ->
     unowned (default 0 (plan_out (cufft (calls w) c))) w ->
     unique_owner (snd (plan_1d cufft type this nx w))) /\
  (forall c, c = cufftPlan2d nx ny type ->
     status (cufft (calls w) c) = CUFFT_SUCCESS ->
     unowned (default 0 (plan_out (cufft (calls w) c))) w ->
     unique_owner (snd (plan_2d cufft type this nx ny w))) /\
  (forall c, c = cufftPlan3d nx ny nz type ->
     status (cufft (calls w) c) = CUFFT_SUCCESS ->
     unowned (default 0 (plan_out (cufft (calls w) c))) w ->
     unique_owner (snd (plan_3d cufft type this nx ny nz w))) /\
  (forall c,
     c = cufftPlanMany rank n inembed istride idist onembed ostride odist
           type batch ->
     status (cufft (calls w) c) = CUFFT_SUCCESS ->
     unowned (default 0 (plan_out (cufft (calls w) c))) w ->
     unique_owner (snd (plan_many cufft type this rank n inembed istride idist
                          onembed ostride odist batch w))).
Proof.
  assert (Hgen : forall c,
             status (cufft (calls w) c) = CUFFT_SUCCESS ->
             unowned (default 0 (plan_out (cufft (calls w) c))) w ->
             unique_owner (snd (construct cufft this c w))).
  { intros c Hok Hfree. rewrite (construct_success cufft this c w Hok).
    exact (unique_owner_insert_unowned this _ (mkworld (objects w) (calls w ++ [c]))
             Hinv Hfree). }
  repeat split; intros c -> Hok Hfree; apply (Hgen _ Hok Hfree).
Qed.

Lemma unique_owner_construct_witness :
  unique_owner (snd (plan_2d granting_cufft CUFFT_D2Z 5 8 4 two_plans)).
Proof.
  destruct (unique_owner_construct granting_cufft CUFFT_D2Z 5 two_plans
              8 4 0 0 0 0 0 0 0 0 0 0 two_plans_unique) as (_ & H & _).
  apply (H _ eq_refl eq_refl).
  intros a p Ha Hv. unfold two_plans in Ha. simpl in Ha.
  apply lookup_insert_Some in Ha as [[_ <-]|[_ Ha]]; [discriminate|].
  apply lookup_insert_Some in Ha as [[_ <-]|[_ Ha]]; [discriminate|].
  rewrite lookup_empty in Ha. discriminate.
Defined.

(** ** The trait tables and what compiles *)

(** X13: [type_mapper] is an involution on the four cuFFT element types
    and never maps a type to itself; [type_chooser] gives every one of the
    six kinds to exactly one pair of types; and for a pair of different
    types the two tables agree. *)
Theorem trait_tables_consistent :
  (forall I O, type_mapper I = Some O -> type_mapper O = Some I /\ I <> O) /\
  (forall I O I' O' t,
     type_chooser I O = Some t -> type_chooser I' O' = Some t ->
     I = I' /\ O = O') /\
  (forall t, exists I O, type_chooser I O = Some t) /\
  (forall I O, I <> O ->
     (is_Some (type_chooser I O) <-> type_mapper I = Some O)).
Proof.
  split; [|split; [|split]].
  - intros I O H. destruct I; simpl in H; try discriminate;
      injection H as <-; (split; [reflexivity | discriminate]).
  - intros I O I' O' t H H'.
    destruct I, O; simpl in H; try discriminate; injection H as <-;
      destruct I', O'; simpl in H'; try discriminate; (split; reflexivity).
  - intros t. destruct t.
    + exists cufftReal, cufftComplex. reflexivity.
    + exists cufftComplex, cufftReal. reflexivity.
    + exists cufftComplex, cufftComplex. reflexivity.
    + exists cufftDoubleReal, cufftDoubleComplex. reflexivity.
    + exists cufftDoubleComplex, cufftDoubleReal. reflexivity.
    + exists cufftDoubleComplex, cufftDoubleComplex. reflexivity.
  - intros I O Hne. split.
    + intros [t Ht]. eapply type_chooser_mapper; eassumption.
    + intros H. destruct I; simpl in H; try discriminate;
        injection H as <-; simpl; eauto.
Qed.

Lemma trait_tables_consistent_witness :
  type_mapper cufftComplex = Some cufftReal /\ cufftReal <> cufftComplex.
Proof.
  destruct trait_tables_consistent as (H & _).
  apply (H cufftReal cufftComplex). reflexivity.
Defined.

Lemma execute_rejected_or_accepted
    (cufft : list native_call -> native_call -> native_reply)
    (type : cufftType) (I O : ctype) :
  rejected (execute cufft type I O) \/ accepted (execute cufft type I O).
Proof.
  unfold execute. destruct (cufft_exec cufft I O).
  - match goal with
    | |- context [match ?l with [] => _ | _ :: _ => _ end] => destruct l
    end.
    + right. unfold accepted. eauto.
    + left. unfold rejected. eauto.
  - left. apply rejected_snoc.
Qed.

(** X14: a plan of kind [CUFFT_C2C] or [CUFFT_Z2Z] has no [execute] that
    compiles, with or without direction, whatever the two types. *)
Theorem complex_plans_cannot_execute
    (cufft : list native_call -> native_call -> native_reply)
    (type : cufftType) (I O : ctype)
    (Hkind : type = CUFFT_C2C \/ type = CUFFT_Z2Z) :
  rejected (execute cufft type I O) /\
  rejected (execute_directional cufft type I O).
Proof.
  split; [|apply execute_directional_never_accepted].
  destruct (execute_rejected_or_accepted cufft type I O) as [H|[f Hf]];
    [exact H|].
  apply execute_accepted_inv in Hf as (_ & routine & Hr & _).
  destruct Hkind as [-> | ->]; discriminate.
Qed.

Lemma complex_plans_cannot_execute_witness :
  rejected (execute quiet_cufft CUFFT_C2C cufftComplex cufftComplex) /\
  rejected (execute_directional quiet_cufft CUFFT_C2C cufftComplex cufftComplex).
Proof.
  apply (complex_plans_cannot_execute quiet_cufft CUFFT_C2C).
  left. reflexivity.
Defined.

(** X15: no plan runs its own inverse: when [execute<I, O>] compiles for
    [plan<type>], [execute<O, I>] does not; it compiles for the plan of the
    kind [type_chooser<O, I>::value], a different kind. *)
Theorem execute_one_way
    (cufft : list native_call -> native_call -> native_reply)
    (type : cufftType) (I O : ctype)
    (Hacc : accepted (execute cufft type I O)) :
  rejected (execute cufft type O I) /\
  exists type', type_chooser O I = Some type' /\ type' <> type /\
                accepted (execute cufft type' O I).
Proof.
  destruct Hacc as [f Hf].
  apply execute_accepted_inv in Hf as (Hch & routine & Hr & _).
  split.
  - destruct (execute_rejected_or_accepted cufft type O I) as [H|[g Hg]];
      [exact H|].
    apply execute_accepted_inv in Hg as (Hch' & _).
    destruct I, O; simpl in Hch, Hch'; try congruence;
      injection Hch as <-; discriminate Hr.
  - destruct I, O; simpl in Hch; try discriminate; injection Hch as <-;
      simpl in Hr; try discriminate;
      (eexists; split; [reflexivity|]; split; [discriminate|]);
      unfold accepted; eexists; reflexivity.
Qed.

Lemma execute_one_way_witness :
  rejected (execute quiet_cufft CUFFT_R2C cufftComplex cufftReal) /\
  exists type', type_chooser cufftComplex cufftReal = Some type' /\
                type' <> CUFFT_R2C /\
                accepted (execute quiet_cufft type' cufftComplex cufftReal).
Proof.
  apply (execute_one_way quiet_cufft CUFFT_R2C cufftReal cufftComplex).
  unfold accepted. eexists. reflexivity.
Defined.

(** X16: the diagnostics name the cause.  [execute] without direction on
    two identical types fails the assertion "Plan needs a direction ...";
    [execute] with direction on two different types fails the assertion
    "Transformations between different types are implicitly inverse"; and
    either [execute] on a pair that [type_chooser] gives another kind than
    the plan's fails "This plan can not be used for other types than
    originally specified.". *)
Theorem execute_diagnostics_name_cause
    (cufft : list native_call -> native_call -> native_reply)
    (type : cufftType) (I O : ctype) :
  In (static_assert_failed
        "Plan needs a direction for transformations between the same types.")
     (diagnostics (execute cufft type I I)) /\
  (I <> O ->
   In (static_assert_failed
         "Transformations between different types are implicitly inverse")
      (diagnostics (execute_directional cufft type I O))) /\
  (forall type', type_chooser I O = Some type' -> type' <> type ->
     In (static_assert_failed
           "This plan can not be used for other types than originally specified.")
        (diagnostics (execute cufft type I O)) /\
     In (static_assert_failed
           "This plan can not be used for other types than originally specified.")
        (diagnostics (execute_directional cufft type I O))).
Proof.
  split; [|split].
  - unfold execute. rewrite is_same_refl.
    destruct (cufft_exec cufft I I); simpl; auto.
  - intros Hne. apply is_same_false in Hne.
    unfold execute_directional. rewrite Hne.
    destruct (cufft_exec_directional cufft I O); simpl; auto.
  - intros type' Hch Hne.
    assert (Has : In (static_assert_failed
                        "This plan can not be used for other types than originally specified.")
                     (assert_chooser type I O)).
    { unfold assert_chooser, transformation_type. rewrite Hch. simpl.
      rewrite bool_decide_eq_false_2 by assumption. simpl. auto. }
    split.
    + unfold execute.
      destruct (cufft_exec cufft I O);
        [match goal with
         | |- context [match ?l with [] => _ | _ :: _ => _ end] =>
             assert (Hin : In (static_assert_failed
                                 "This plan can not be used for other types than originally specified.") l)
               by (apply in_or_app; right; apply in_or_app; left; exact Has);
             destruct l; [destruct Hin | exact Hin]
         end|].
      simpl. apply in_or_app. left. apply in_or_app. right.
      apply in_or_app. left. exact Has.
    + unfold execute_directional.
      destruct (cufft_exec_directional cufft I O);
        [match goal with
         | |- context [match ?l with [] => _ | _ :: _ => _ end] =>
             assert (Hin : In (static_assert_failed
                                 "This plan can not be used for other types than originally specified.") l)
               by (apply in_or_app; right; apply in_or_app; left; exact Has);
             destruct l; [destruct Hin | exact Hin]
         end|].
      simpl. apply in_or_app. left. apply in_or_app. right.
      apply in_or_app. left. exact Has.
Qed.

Lemma execute_diagnostics_name_cause_witness :
  In (static_assert_failed
        "Transformations between different types are implicitly inverse")
     (diagnostics (execute_directional quiet_cufft CUFFT_R2C cufftReal cufftComplex)) /\
  In (static_assert_failed
        "This plan can not be used for other types than originally specified.")
     (diagnostics (execute quiet_cufft CUFFT_R2C cufftDoubleReal cufftDoubleComplex)).
Proof.
  destruct (execute_diagnostics_name_cause quiet_cufft CUFFT_R2C
              cufftReal cufftComplex) as (_ & H1 & _).
  destruct (execute_diagnostics_name_cause quiet_cufft CUFFT_R2C
              cufftDoubleReal cufftDoubleComplex) as (_ & _ & H2).
  split.
  - apply H1. discriminate.
  - apply (H2 CUFFT_D2Z); [reflexivity | discriminate].
Defined.

(** ** Coordinates inside a launch *)

Module cuda_grid_facts.
Import cuda.

Lemma axis_exact (g b d t : Z) :
  0 <= b < g -> 0 <= t < d -> g * d <= UINT_MOD ->
  uint_add (uint_mul b d) t = b * d + t /\ b * d + t < g * d.
Proof.
  intros Hb Ht Hfit.
  assert (Hlt : b * d + t < g * d) by nia.
  assert (Hge : 0 <= b * d) by nia.
  split; [|exact Hlt].
  unfold uint_add, uint_mul.
  rewrite (Z.mod_small (b * d)) by lia.
  apply Z.mod_small. lia.
Qed.

Lemma axis_injective (d b1 t1 b2 t2 : Z) :
  0 <= t1 < d -> 0 <= t2 < d ->
  b1 * d + t1 = b2 * d + t2 -> b1 = b2 /\ t1 = t2.
Proof.
  intros H1 H2 Heq.
  assert (b1 = b2) by nia. subst b2. split; [reflexivity | lia].
Qed.

Lemma axis_periodic (b d t m : Z) :
  m * d = UINT_MOD ->
  uint_add (uint_mul (b + m) d) t = uint_add (uint_mul b d) t.
Proof.
  intros Hm. unfold uint_add, uint_mul.
  replace ((b + m) * d) with (b * d + 1 * UINT_MOD) by lia.
  rewrite Z_mod_plus_full. reflexivity.
Qed.

Lemma coords_exact (c : thread_context)
    (Hok : context_ok c) (Hin : in_grid c) (Hfit : launch_fits c) :
  (coord_x c = exact_x c /\ coord_x c < x (gridDim c) * x (blockDim c)) /\
  (coord_y c = exact_y c /\ coord_y c < y (gridDim c) * y (blockDim c)) /\
  (coord_z c = exact_z c /\ coord_z c < z (gridDim c) * z (blockDim c)).
Proof.
  destruct Hok as (_ & (Hbx & Hby & Hbz) & _ & (Htx & Hty & Htz)).
  destruct Hin as ((Hgx & Hdx) & (Hgy & Hdy) & (Hgz & Hdz)).
  destruct Hfit as (Hfx & Hfy & Hfz).
  unfold is_uint in *.
  unfold coord_x, coord_y, coord_z, exact_x, exact_y, exact_z.
  split; [|split].
  - destruct (axis_exact (x (gridDim c)) (x (blockIdx c)) (x (blockDim c))
                (x (threadIdx c))) as [He Hl]; [lia | lia | lia |].
    rewrite He. split; [reflexivity | exact Hl].
  - destruct (axis_exact (y (gridDim c)) (y (blockIdx c)) (y (blockDim c))
                (y (threadIdx c))) as [He Hl]; [lia | lia | lia |].
    rewrite He. split; [reflexivity | exact Hl].
  - destruct (axis_exact (z (gridDim c)) (z (blockIdx c)) (z (blockDim c))
                (z (threadIdx c))) as [He Hl]; [lia | lia | lia |].
    rewrite He. split; [reflexivity | exact Hl].
Qed.

(** X17: for a thread of a launch whose extent along each axis
    (grid extent times block extent) is at most 2^32, every helper returns
    block_index * block_extent + thread_index exactly, and the result is
    below the extent of the launch along that axis. *)
Theorem coord_within_launch (c : thread_context)
    (Hok : context_ok c) (Hin : in_grid c) (Hfit : launch_fits c) :
  (coord_x c = exact_x c /\ coord_x c < x (gridDim c) * x (blockDim c)) /\
  (coord_y c = exact_y c /\ coord_y c < y (gridDim c) * y (blockDim c)) /\
  (coord_z c = exact_z c /\ coord_z c < z (gridDim c) * z (blockDim c)).
Proof. exact (coords_exact c Hok Hin Hfit). Qed.

Lemma small_launch_ok (bx by_ tx ty : Z) :
  0 <= bx < 4 -> 0 <= by_ < 2 -> 0 <= tx < 256 -> 0 <= ty < 2 ->
  context_ok (small_launch_thread bx by_ tx ty) /\
  in_grid (small_launch_thread bx by_ tx ty) /\
  launch_fits (small_launch_thread bx by_ tx ty).
Proof.
  intros. unfold context_ok, uint3_ok, is_uint, in_grid, launch_fits,
    small_launch_thread, UINT_MOD. simpl. lia.
Qed.

Lemma coord_within_launch_witness :
  coord_x (small_launch_thread 3 1 17 1) = 785 /\
  coord_y (small_launch_thread 3 1 17 1) = 3 /\
  coord_z (small_launch_thread 3 1 17 1) = 0.
Proof.
  destruct (small_launch_ok 3 1 17 1) as (Hok & Hin & Hfit); try lia.
  destruct (coord_within_launch _ Hok Hin Hfit) as ((Hx & _) & (Hy & _) & (Hz & _)).
  rewrite Hx, Hy, Hz. repeat split; reflexivity.
Defined.

(** X18: in such a launch the three helpers together tell the threads
    apart: two threads of the launch with the same three coordinates have
    the same block index and the same thread index. *)
Theorem coord_identifies_thread (c1 c2 : thread_context)
    (Hok1 : context_ok c1) (Hok2 : context_ok c2)
    (Hin1 : in_grid c1) (Hin2 : in_grid c2)
    (Hsame : same_launch c1 c2) (Hfit : launch_fits c1)
    (Hx : coord_x c1 = coord_x c2)
    (Hy : coord_y c1 = coord_y c2)
    (Hz : coord_z c1 = coord_z c2) :
  blockIdx c1 = blockIdx c2 /\ threadIdx c1 = threadIdx c2.
Proof.
  assert (Hfit2 : launch_fits c2).
  { destruct Hsame as [Hg Hd]. unfold launch_fits in *.
    rewrite <- Hg, <- Hd. exact Hfit. }
  destruct (coords_exact c1 Hok1 Hin1 Hfit)
    as ((Ex1 & _) & (Ey1 & _) & (Ez1 & _)).
  destruct (coords_exact c2 Hok2 Hin2 Hfit2)
    as ((Ex2 & _) & (Ey2 & _) & (Ez2 & _)).
  rewrite Ex1, Ex2 in Hx. rewrite Ey1, Ey2 in Hy. rewrite Ez1, Ez2 in Hz.
  unfold exact_x, exact_y, exact_z in *.
  destruct Hok1 as (_ & _ & _ & (Htx1 & Hty1 & Htz1)).
  destruct Hok2 as (_ & _ & _ & (Htx2 & Hty2 & Htz2)).
  destruct Hin1 as ((_ & Hdx1) & (_ & Hdy1) & (_ & Hdz1)).
  destruct Hin2 as ((_ & Hdx2) & (_ & Hdy2) & (_ & Hdz2)).
  destruct Hsame as [_ Hd]. rewrite Hd in *.
  unfold is_uint in *.
  apply axis_injective in Hx as [Hbx Hthx]; try lia.
  apply axis_injective in Hy as [Hby Hthy]; try lia.
  apply axis_injective in Hz as [Hbz Hthz]; try lia.
  destruct (blockIdx c1), (blockIdx c2), (threadIdx c1), (threadIdx c2).
  simpl in *. subst. split; reflexivity.
Qed.

Lemma coord_identifies_thread_witness :
  blockIdx (small_launch_thread 3 1 17 1) = blockIdx (small_launch_thread 3 1 17 1) /\
  threadIdx (small_launch_thread 3 1 17 1) = threadIdx (small_launch_thread 3 1 17 1).
Proof.
  destruct (small_launch_ok 3 1 17 1) as (Hok & Hin & Hfit); try lia.
  apply (coord_identifies_thread _ _ Hok Hok Hin Hin); try reflexivity.
  - split; reflexivity.
  - exact Hfit.
Defined.

(** X19: beyond 2^32 the x coordinate repeats: two threads with the same
    block extent and thread index whose block indices are [m] apart, where
    [m] blocks make 2^32 threads, get the same [coord_x]. *)
Theorem coord_x_repeats (c c' : thread_context) (m : Z)
    (Hd : x (blockDim c') = x (blockDim c))
    (Ht : x (threadIdx c') = x (threadIdx c))
    (Hb : x (blockIdx c') = x (blockIdx c) + m)
    (Hm : m * x (blockDim c) = UINT_MOD) :
  coord_x c' = coord_x c.
Proof.
  unfold coord_x. rewrite Hd, Ht, Hb. apply axis_periodic. exact Hm.
Qed.

Lemma coord_x_repeats_witness :
  coord_x far_thread =
  coord_x (mkcontext (mkuint3 4194305 1 1) (mkuint3 0 0 0)
                     (mkuint3 1024 1 1) (mkuint3 0 0 0)).
Proof.
  apply (coord_x_repeats _ far_thread 4194304); reflexivity.
Defined.

End cuda_grid_facts.
